(** * GrVertexWriter and skgpu::mtl::RenderCommandEncoder

    A shallow embedding of
    - [src/gpu/GrVertexWriter.h]: a bump cursor that copies plain-data
      fields into caller-owned memory, and
    - [experimental/graphite/src/mtl/MtlRenderCommandEncoder.h]: a wrapper
      around a native render command encoder that elides redundant
      state-change messages.

    Addresses and machine integers are [Z]; memory is a finite map from
    addresses to bytes; the native encoder is the list of messages it has
    received. *)

From Stdlib Require Import ZArith List Lia.
From Stdlib.Strings Require Import Byte.
From stdpp Require Import base option list gmap.

Local Open Scope Z_scope.

(** ** Raw memory *)

Abbreviation byte := Byte.byte.

(** [void*]: an address; [nullptr] is address zero. *)
Definition ptr : Type := Z.
Definition nullptr : ptr := 0.

(** Caller-owned storage. An address without a binding holds no byte
    that this development knows about. *)
Abbreviation mem := (gmap Z byte).

(** [SkTAddOffset<void>(ptr, byteOffset)] of include/private/SkTemplates.h:
    plain byte-wise pointer arithmetic. *)
Definition SkTAddOffset (p : ptr) (byteOffset : Z) : ptr := p + byteOffset.

(** [memcpy(dst, src, n)], the source bytes given as the list [src] of
    length [n]: byte [i] of [src] lands at address [dst + i]. *)
Fixpoint memcpy (dst : ptr) (src : list byte) (m : mem) : mem :=
  match src with
  | [] => m
  | b :: src' => memcpy (dst + 1) src' (<[dst := b]> m)
  end.

(** Reading [n] bytes back, starting at [p]; [None] as soon as one of the
    addresses is unbound. *)
Fixpoint read (p : ptr) (n : nat) (m : mem) : option (list byte) :=
  match n with
  | O => Some []
  | S n' =>
      match m !! p, read (p + 1) n' m with
      | Some b, Some bs => Some (b :: bs)
      | _, _ => None
      end
  end.

(** ** Plain old data

    The [static_assert(std::is_pod<T>::value)] of the writer: a type with
    a fixed size whose values are copied through their object
    representation. *)
Class Pod (T : Type) := {
  sizeof : nat;
  object_repr : T -> list byte;
  object_repr_length : forall v : T, length (object_repr v) = sizeof
}.
Arguments sizeof T {_}.

(** Little-endian object representation of an unsigned integer on [n]
    bytes. *)
Definition byte_of_Z (z : Z) : byte :=
  default Byte.x00 (Byte.of_N (Z.to_N (z mod 256))).

Fixpoint le_bytes (n : nat) (z : Z) : list byte :=
  match n with
  | O => []
  | S n' => byte_of_Z z :: le_bytes n' (z / 256)
  end.

Lemma le_bytes_length n z : length (le_bytes n z) = n.
Proof. revert z; induction n as [|n IH]; intros z; simpl; [|rewrite IH]; reflexivity. Qed.

(** The scalar types the writer is used with. A [float] is carried as its
    IEEE-754 binary32 bit pattern, which is all [memcpy] looks at. *)
Record uint16_t := U16 { u16 : Z }.
Record uint32_t := U32 { u32 : Z }.
Record float := F32 { f32_bits : Z }.

#[export] Instance uint16_pod : Pod uint16_t :=
  {| sizeof := 2; object_repr := fun v => le_bytes 2 (u16 v);
     object_repr_length := fun v => le_bytes_length 2 (u16 v) |}.
#[export] Instance uint32_pod : Pod uint32_t :=
  {| sizeof := 4; object_repr := fun v => le_bytes 4 (u32 v);
     object_repr_length := fun v => le_bytes_length 4 (u32 v) |}.
#[export] Instance float_pod : Pod float :=
  {| sizeof := 4; object_repr := fun v => le_bytes 4 (f32_bits v);
     object_repr_length := fun v => le_bytes_length 4 (f32_bits v) |}.

(** [SkPoint]: two floats, [fX] then [fY], no padding. *)
Record SkPoint := { fX : float; fY : float }.

Definition SkPoint_repr (p : SkPoint) : list byte :=
  object_repr (fX p) ++ object_repr (fY p).

Lemma SkPoint_repr_length (p : SkPoint) : length (SkPoint_repr p) = 8%nat.
Proof. reflexivity. Qed.

#[export] Instance SkPoint_pod : Pod SkPoint :=
  {| sizeof := 8; object_repr := SkPoint_repr;
     object_repr_length := SkPoint_repr_length |}.

(** ** GrVertexWriter *)

Module VertexWriter.

(** [struct GrVertexWriter { void* fPtr; ... }]. *)
Record GrVertexWriter := { fPtr : ptr }.

(** [kIEEE_32_infinity]. *)
Definition kIEEE_32_infinity : Z := 0x7f800000.

(** [bool operator==(const GrVertexWriter& that) const]. *)
Definition op_eq (this that : GrVertexWriter) : bool := fPtr this =? fPtr that.

(** [operator bool() const]. *)
Definition op_bool (this : GrVertexWriter) : bool := negb (fPtr this =? nullptr).

(** [makeOffset]: a new writer, the original is left as it is. *)
Definition makeOffset (this : GrVertexWriter) (offsetInBytes : Z) : GrVertexWriter :=
  {| fPtr := SkTAddOffset (fPtr this) offsetInBytes |}.

(** *** Moves

    A move involves two writer objects, which may be one and the same, so
    writers live in a store indexed by object identity and the two
    assignments of [operator=(GrVertexWriter&&)] are done in the order of
    the source. *)
Abbreviation objects := (gmap nat GrVertexWriter).

Definition set_fPtr (obj : nat) (p : ptr) (σ : objects) : objects :=
  <[obj := {| fPtr := p |}]> σ.

(** [GrVertexWriter& operator=(GrVertexWriter&& that)]; [None] when [that]
    does not name an object. *)
Definition move_assign (this that : nat) (σ : objects) : option objects :=
  match σ !! that with
  | Some w =>
      let σ1 := set_fPtr this (fPtr w) σ in      (* fPtr = that.fPtr;      *)
      Some (set_fPtr that nullptr σ1)            (* that.fPtr = nullptr;   *)
  | None => None
  end.

(** [GrVertexWriter(GrVertexWriter&& that) { *this = std::move(that); }]:
    [this] names the object under construction, whose [fPtr] is assigned
    before it is ever read. *)
Definition move_construct (this that : nat) (σ : objects) : option objects :=
  move_assign this that σ.

(** *** The argument kinds of [write] *)

(** Modelled from the spec: [GrVertexColor] (src/gpu/GrColor.h is not among
    the sources): either a single packed word or four packed words,
    selected by a boolean flag carried alongside the colour. The writer
    reads [fColor[0..3]] and [fWideColor]; the word type is a parameter. *)
Record GrVertexColor (W : Type) := {
  fColor0 : W; fColor1 : W; fColor2 : W; fColor3 : W;
  fWideColor : bool
}.
Arguments fColor0 {W}. Arguments fColor1 {W}. Arguments fColor2 {W}.
Arguments fColor3 {W}. Arguments fWideColor {W}.

(** [Sk4f]: four float lanes; [store] writes them out in lane order. *)
Record Sk4f := { lane0 : float; lane1 : float; lane2 : float; lane3 : float }.

Definition Sk4f_store (vector : Sk4f) : list float :=
  [lane0 vector; lane1 vector; lane2 vector; lane3 vector].

(** One argument of the variadic [write]; the constructor is the overload
    that the argument's static type selects. *)
Inductive Arg : Type :=
| Plain {T : Type} `{Pod T} (val : T)              (* const T&             *)
| FixedArray {T : Type} `{Pod T} (val : list T)    (* const T(&)[N]        *)
| Color {W : Type} `{Pod W} (color : GrVertexColor W)
| Conditional (fCondition : bool) (fValue : Arg)   (* Conditional<T>       *)
| Skip (T : Type) `{Pod T}                         (* Skip<T>              *)
| Vector (vector : Sk4f).                          (* Sk4f                 *)

(** [static Conditional<T> If(bool condition, const T& value)]. *)
Definition If (condition : bool) (value : Arg) : Arg := Conditional condition value.

(** A writer and the memory it points into. *)
Record state := { writer : GrVertexWriter; ram : mem }.

Definition cursor (s : state) : ptr := fPtr (writer s).

(** [memcpy(fPtr, src, n); fPtr = SkTAddOffset<void>(fPtr, n);] where [src]
    holds the [n] bytes that are copied. *)
Definition copy_advance (src : list byte) (n : Z) (s : state) : state :=
  {| writer := {| fPtr := SkTAddOffset (cursor s) n |};
     ram := memcpy (cursor s) src (ram s) |}.

(** [write(const T& val)]: [memcpy(fPtr, &val, sizeof(T))], then the bump. *)
Definition write_pod {T : Type} `{Pod T} (val : T) (s : state) : state :=
  copy_advance (object_repr val) (Z.of_nat (sizeof T)) s.

(** [write(const T(&val)[N])]: [memcpy(fPtr, val, N * sizeof(T))], then the
    bump; [N] is the length of [val]. *)
Definition write_fixed_array {T : Type} `{Pod T} (val : list T) (s : state) : state :=
  copy_advance (flat_map object_repr val) (Z.of_nat (length val) * Z.of_nat (sizeof T)) s.

(** What each [write] overload does with its first argument, before it
    goes on with [this->write(remainder...)]. *)
Fixpoint write_value (a : Arg) (s : state) : state :=
  match a with
  | Plain val => write_pod val s
  | FixedArray val => write_fixed_array val s
  | Color color =>
      let s := write_pod (fColor0 color) s in
      if fWideColor color
      then write_pod (fColor3 color) (write_pod (fColor2 color) (write_pod (fColor1 color) s))
      else s
  | Conditional fCondition fValue =>
      if fCondition then write_value fValue s else s
  | Skip T =>
      {| writer := {| fPtr := SkTAddOffset (cursor s) (Z.of_nat (sizeof T)) |}; ram := ram s |}
  | Vector vector => write_fixed_array (Sk4f_store vector) s
  end.

(** [write(val, remainder...)], down to [void write() {}]. *)
Fixpoint write (args : list Arg) (s : state) : state :=
  match args with
  | [] => s
  | val :: remainder => write remainder (write_value val s)
  end.

(** [writeArray(const T* array, int count)]: one [memcpy] of
    [count * sizeof(T)] bytes. [array] lists the elements behind the
    pointer; outside [0 <= count <= length array] the C++ reads past them,
    which is undefined, and the model has no result. *)
Definition writeArray {T : Type} `{Pod T} (array : list T) (count : Z) (s : state)
  : option state :=
  if decide (0 <= count <= Z.of_nat (length array)) then
    let n := count * Z.of_nat (sizeof T) in
    Some (copy_advance (take (Z.to_nat n) (flat_map object_repr array)) n s)
  else None.

(** [fill(const T& val, int repeatCount)]: the loop body runs
    [repeatCount] times, not at all when that is not positive. *)
Definition fill (val : Arg) (repeatCount : Z) (s : state) : state :=
  Nat.iter (Z.to_nat repeatCount) (write [val]) s.

(** [writeRaw(const void* data, size_t size)]; [data] lists the bytes
    behind the pointer, and reading past them has no result. *)
Definition writeRaw (data : list byte) (size : Z) (s : state) : option state :=
  if decide (0 <= size <= Z.of_nat (length data)) then
    Some (copy_advance (take (Z.to_nat size) data) size s)
  else None.

(** *** Quads *)

(** [TriStrip<T>] and [TriFan<T>]: the same four scalars, told apart by
    their type. *)
Record TriStrip (T : Type) := { strip_l : T; strip_t : T; strip_r : T; strip_b : T }.
Record TriFan (T : Type) := { fan_l : T; fan_t : T; fan_r : T; fan_b : T }.
Arguments strip_l {T}. Arguments strip_t {T}. Arguments strip_r {T}. Arguments strip_b {T}.
Arguments fan_l {T}. Arguments fan_t {T}. Arguments fan_r {T}. Arguments fan_b {T}.

(** [SkRect], as far as [TriStripFromRect] and [TriFanFromRect] read it. *)
Record SkRect := { fLeft : float; fTop : float; fRight : float; fBottom : float }.

Definition TriStripFromRect (r : SkRect) : TriStrip float :=
  {| strip_l := fLeft r; strip_t := fTop r; strip_r := fRight r; strip_b := fBottom r |}.

(** [TriStripFromUVs(const std::array<uint16_t, 4>& rect)]; a missing
    element is outside the array. *)
Definition TriStripFromUVs (rect : list uint16_t) : option (TriStrip uint16_t) :=
  match rect with
  | [r0; r1; r2; r3] => Some {| strip_l := r0; strip_t := r1; strip_r := r2; strip_b := r3 |}
  | _ => None
  end.

Definition TriFanFromRect (r : SkRect) : TriFan float :=
  {| fan_l := fLeft r; fan_t := fTop r; fan_r := fRight r; fan_b := fBottom r |}.

(** Modelled from the spec: [GrQuad] (src/gpu/geometry/GrQuad.h is not
    among the sources): a general quad value supplies one explicit point
    per corner; [point q corner] stands for [q.point(corner)]. *)
Record GrQuad := { point : Z -> SkPoint }.

(** One argument of [writeQuad]; the constructor is the [writeQuadValue]
    overload its type selects. *)
Inductive QuadArg : Type :=
| QValue (val : Arg)
| QTriStrip {T : Type} `{Pod T} (r : TriStrip T)
| QTriFan {T : Type} `{Pod T} (r : TriFan T)
| QQuad (q : GrQuad).

(** [template <int corner> writeQuadValue]; the switches have the four
    cases [0..3] and no default. *)
Definition writeQuadValue (corner : Z) (val : QuadArg) (s : state) : state :=
  match val with
  | QValue val => write [val] s
  | QTriStrip r =>
      match corner with
      | 0 => write [Plain (strip_l r); Plain (strip_t r)] s
      | 1 => write [Plain (strip_l r); Plain (strip_b r)] s
      | 2 => write [Plain (strip_r r); Plain (strip_t r)] s
      | 3 => write [Plain (strip_r r); Plain (strip_b r)] s
      | _ => s
      end
  | QTriFan r =>
      match corner with
      | 0 => write [Plain (fan_l r); Plain (fan_t r)] s
      | 1 => write [Plain (fan_l r); Plain (fan_b r)] s
      | 2 => write [Plain (fan_r r); Plain (fan_b r)] s
      | 3 => write [Plain (fan_r r); Plain (fan_t r)] s
      | _ => s
      end
  | QQuad q => write [Plain (point q corner)] s
  end.

(** [writeQuadVert<corner>(val, remainder...)], down to the empty pack. *)
Fixpoint writeQuadVert (corner : Z) (args : list QuadArg) (s : state) : state :=
  match args with
  | [] => s
  | val :: remainder => writeQuadVert corner remainder (writeQuadValue corner val s)
  end.

(** [writeQuad(remainder...)]: corners 0, 1, 2, 3 in turn. *)
Definition writeQuad (remainder : list QuadArg) (s : state) : state :=
  let s := writeQuadVert 0 remainder s in
  let s := writeQuadVert 1 remainder s in
  let s := writeQuadVert 2 remainder s in
  writeQuadVert 3 remainder s.

(** *** Vocabulary for the statements below *)

(** A scalar together with its POD type: the argument of one call
    [write(v)]. *)
Record Scalar := { scalar_type : Type; scalar_pod : Pod scalar_type; scalar_val : scalar_type }.

Definition scalar_of {T : Type} `{Pod T} (val : T) : Scalar :=
  {| scalar_type := T; scalar_pod := _; scalar_val := val |}.

Definition scalar_arg (v : Scalar) : Arg := @Plain (scalar_type v) (scalar_pod v) (scalar_val v).
Definition scalar_size (v : Scalar) : Z := Z.of_nat (@sizeof (scalar_type v) (scalar_pod v)).
Definition scalar_bytes (v : Scalar) : list byte :=
  @object_repr (scalar_type v) (scalar_pod v) (scalar_val v).

Definition total (sizes : list Z) : Z := fold_right Z.add 0 sizes.

(** One call of [write] per element, each with a single argument. *)
Definition write_each (args : list Arg) (s : state) : state :=
  fold_left (fun s a => write [a] s) args s.

(** The number of bytes by which an argument moves the cursor. *)
Fixpoint footprint (a : Arg) : Z :=
  match a with
  | @Plain T _ _ => Z.of_nat (sizeof T)
  | @FixedArray T _ val => Z.of_nat (length val) * Z.of_nat (sizeof T)
  | @Color W _ color => (if fWideColor color then 4 else 1) * Z.of_nat (sizeof W)
  | Conditional fCondition fValue => if fCondition then footprint fValue else 0
  | @Skip T _ => Z.of_nat (sizeof T)
  | Vector _ => 4 * Z.of_nat (sizeof float)
  end.

(** Whether an argument copies bytes for every byte it moves the cursor
    by: false exactly when it reaches the [Skip] overload. *)
Fixpoint no_skip (a : Arg) : bool :=
  match a with
  | Skip _ => false
  | Conditional fCondition fValue => if fCondition then no_skip fValue else true
  | _ => true
  end.

(** The bytes an argument copies into the buffer, in address order. *)
Fixpoint arg_bytes (a : Arg) : list byte :=
  match a with
  | Plain val => object_repr val
  | FixedArray val => flat_map object_repr val
  | Color color =>
      object_repr (fColor0 color) ++
      (if fWideColor color
       then object_repr (fColor1 color) ++ object_repr (fColor2 color) ++
            object_repr (fColor3 color)
       else [])
  | Conditional fCondition fValue => if fCondition then arg_bytes fValue else []
  | Skip _ => []
  | Vector vector => flat_map object_repr (Sk4f_store vector)
  end.

(** The [write] arguments that one [writeQuad] argument stands for at a
    given corner. *)
Definition corner_args (corner : Z) (val : QuadArg) : list Arg :=
  match val with
  | QValue val => [val]
  | QTriStrip r =>
      match corner with
      | 0 => [Plain (strip_l r); Plain (strip_t r)]
      | 1 => [Plain (strip_l r); Plain (strip_b r)]
      | 2 => [Plain (strip_r r); Plain (strip_t r)]
      | 3 => [Plain (strip_r r); Plain (strip_b r)]
      | _ => []
      end
  | QTriFan r =>
      match corner with
      | 0 => [Plain (fan_l r); Plain (fan_t r)]
      | 1 => [Plain (fan_l r); Plain (fan_b r)]
      | 2 => [Plain (fan_r r); Plain (fan_b r)]
      | 3 => [Plain (fan_r r); Plain (fan_t r)]
      | _ => []
      end
  | QQuad q => [Plain (point q corner)]
  end.

(** The size of one [writeQuad] argument within one vertex record. *)
Definition quad_footprint (val : QuadArg) : Z :=
  match val with
  | QValue val => footprint val
  | @QTriStrip T _ _ => 2 * Z.of_nat (sizeof T)
  | @QTriFan T _ _ => 2 * Z.of_nat (sizeof T)
  | QQuad _ => Z.of_nat (sizeof SkPoint)
  end.

(** No two writer objects hold the same non-null address. *)
Definition unique_owner (σ : objects) : Prop :=
  forall (i j : nat) (wi wj : GrVertexWriter),
    σ !! i = Some wi -> σ !! j = Some wj ->
    fPtr wi = fPtr wj -> fPtr wi <> nullptr -> i = j.

End VertexWriter.

(** ** skgpu::mtl::RenderCommandEncoder *)

Module Mtl.

(** *** The Metal types the wrapper passes around

    These come from the platform SDK. Object references ([id<...>],
    [NSString*], [const void*]) are addresses with [nil] at zero;
    [NSUInteger] is an unsigned 64-bit integer, and so are the [NS_ENUM]
    types built on it. *)
Definition objc_id : Type := Z.
Definition nil : objc_id := 0.

Definition NSUInteger : Type := Z.
Definition NSInteger : Type := Z.
Definition NSUInteger_modulus : Z := 2 ^ 64.

(** Conversion of an integer to [NSUInteger], as in the cast [(E)-1]. *)
Definition to_NSUInteger (z : Z) : NSUInteger := z mod NSUInteger_modulus.

Definition MTLTriangleFillMode : Type := NSUInteger.
Definition MTLTriangleFillModeFill : MTLTriangleFillMode := 0.
Definition MTLTriangleFillModeLines : MTLTriangleFillMode := 1.

Definition MTLWinding : Type := NSUInteger.
Definition MTLPrimitiveType : Type := NSUInteger.
Definition MTLIndexType : Type := NSUInteger.

Record MTLScissorRect := {
  x : NSUInteger; y : NSUInteger; width : NSUInteger; height : NSUInteger
}.

(** [MTLViewport]: six doubles, carried as their bit patterns. *)
Record MTLViewport := {
  originX : Z; originY : Z; vp_width : Z; vp_height : Z; znear : Z; zfar : Z
}.

(** A message sent to the native [id<MTLRenderCommandEncoder>], one
    constructor per selector the wrapper uses. *)
Inductive message : Type :=
| msg_setLabel (label : objc_id)
| msg_pushDebugGroup (string : objc_id)
| msg_popDebugGroup
| msg_insertDebugSignpost (string : objc_id)
| msg_setRenderPipelineState (pso : objc_id)
| msg_setTriangleFillMode (fillMode : MTLTriangleFillMode)
| msg_setFrontFacingWinding (winding : MTLWinding)
| msg_setViewport (viewport : MTLViewport)
| msg_setVertexBytes (bytes : ptr) (length index : NSUInteger)
| msg_setFragmentBytes (bytes : ptr) (length index : NSUInteger)
| msg_setStencilFrontReferenceValue (frontReferenceValue backReferenceValue : Z)
| msg_setStencilReferenceValue (referenceValue : Z)
| msg_setDepthStencilState (depthStencilState : objc_id)
| msg_setScissorRect (scissorRect : MTLScissorRect)
| msg_drawPrimitives (primitiveType : MTLPrimitiveType) (vertexStart vertexCount : NSUInteger)
| msg_drawPrimitives_instanced (primitiveType : MTLPrimitiveType)
    (vertexStart vertexCount instanceCount baseInstance : NSUInteger)
| msg_drawPrimitives_indirect (primitiveType : MTLPrimitiveType)
    (indirectBuffer : objc_id) (indirectBufferOffset : NSUInteger)
| msg_drawIndexedPrimitives (primitiveType : MTLPrimitiveType) (indexCount : NSUInteger)
    (indexType : MTLIndexType) (indexBuffer : objc_id) (indexBufferOffset : NSUInteger)
| msg_drawIndexedPrimitives_instanced (primitiveType : MTLPrimitiveType)
    (indexCount : NSUInteger) (indexType : MTLIndexType) (indexBuffer : objc_id)
    (indexBufferOffset instanceCount : NSUInteger) (baseVertex : NSInteger)
    (baseInstance : NSUInteger)
| msg_drawIndexedPrimitives_indirect (primitiveType : MTLPrimitiveType)
    (indexType : MTLIndexType) (indexBuffer : objc_id) (indexBufferOffset : NSUInteger)
    (indirectBuffer : objc_id) (indirectBufferOffset : NSUInteger)
| msg_endEncoding.

(** *** The wrapper

    [fCommandEncoder] is the native encoder, seen through the messages it
    has received so far, oldest first; the other four fields are the
    tracked state. *)
Record RenderCommandEncoder := {
  fCommandEncoder : list message;
  fCurrentRenderPipelineState : objc_id;
  fCurrentDepthStencilState : objc_id;
  fCurrentScissorRect : MTLScissorRect;
  fCurrentTriangleFillMode : MTLTriangleFillMode
}.

(** [Make]: a new native encoder, which has received nothing yet, and the
    default member initialisers [nil], [nil], [{ 0, 0, 0, 0 }] and
    [(MTLTriangleFillMode)-1]. *)
Definition Make : RenderCommandEncoder :=
  {| fCommandEncoder := [];
     fCurrentRenderPipelineState := nil;
     fCurrentDepthStencilState := nil;
     fCurrentScissorRect := {| x := 0; y := 0; width := 0; height := 0 |};
     fCurrentTriangleFillMode := to_NSUInteger (-1) |}.

(** A message send to the native encoder behind [fCommandEncoder]. *)
Definition send (msg : message) (e : RenderCommandEncoder) : RenderCommandEncoder :=
  {| fCommandEncoder := fCommandEncoder e ++ [msg];
     fCurrentRenderPipelineState := fCurrentRenderPipelineState e;
     fCurrentDepthStencilState := fCurrentDepthStencilState e;
     fCurrentScissorRect := fCurrentScissorRect e;
     fCurrentTriangleFillMode := fCurrentTriangleFillMode e |}.

Definition setRenderPipelineState (pso : objc_id) (e : RenderCommandEncoder)
  : RenderCommandEncoder :=
  if negb (fCurrentRenderPipelineState e =? pso) then
    let e := send (msg_setRenderPipelineState pso) e in
    {| fCommandEncoder := fCommandEncoder e;
       fCurrentRenderPipelineState := pso;
       fCurrentDepthStencilState := fCurrentDepthStencilState e;
       fCurrentScissorRect := fCurrentScissorRect e;
       fCurrentTriangleFillMode := fCurrentTriangleFillMode e |}
  else e.

Definition setTriangleFillMode (fillMode : MTLTriangleFillMode) (e : RenderCommandEncoder)
  : RenderCommandEncoder :=
  if negb (fCurrentTriangleFillMode e =? fillMode) then
    let e := send (msg_setTriangleFillMode fillMode) e in
    {| fCommandEncoder := fCommandEncoder e;
       fCurrentRenderPipelineState := fCurrentRenderPipelineState e;
       fCurrentDepthStencilState := fCurrentDepthStencilState e;
       fCurrentScissorRect := fCurrentScissorRect e;
       fCurrentTriangleFillMode := fillMode |}
  else e.

Definition setDepthStencilState (depthStencilState : objc_id) (e : RenderCommandEncoder)
  : RenderCommandEncoder :=
  if negb (depthStencilState =? fCurrentDepthStencilState e) then
    let e := send (msg_setDepthStencilState depthStencilState) e in
    {| fCommandEncoder := fCommandEncoder e;
       fCurrentRenderPipelineState := fCurrentRenderPipelineState e;
       fCurrentDepthStencilState := depthStencilState;
       fCurrentScissorRect := fCurrentScissorRect e;
       fCurrentTriangleFillMode := fCurrentTriangleFillMode e |}
  else e.

Definition setScissorRect (scissorRect : MTLScissorRect) (e : RenderCommandEncoder)
  : RenderCommandEncoder :=
  if negb (x (fCurrentScissorRect e) =? x scissorRect) ||
     negb (y (fCurrentScissorRect e) =? y scissorRect) ||
     negb (width (fCurrentScissorRect e) =? width scissorRect) ||
     negb (height (fCurrentScissorRect e) =? height scissorRect) then
    let e := send (msg_setScissorRect scissorRect) e in
    {| fCommandEncoder := fCommandEncoder e;
       fCurrentRenderPipelineState := fCurrentRenderPipelineState e;
       fCurrentDepthStencilState := fCurrentDepthStencilState e;
       fCurrentScissorRect := scissorRect;
       fCurrentTriangleFillMode := fCurrentTriangleFillMode e |}
  else e.

(** The pass-through methods. *)
Definition setLabel label := send (msg_setLabel label).
Definition pushDebugGroup string := send (msg_pushDebugGroup string).
Definition popDebugGroup := send msg_popDebugGroup.
Definition insertDebugSignpost string := send (msg_insertDebugSignpost string).
Definition setFrontFacingWinding winding := send (msg_setFrontFacingWinding winding).
Definition setViewport viewport := send (msg_setViewport viewport).
Definition setVertexBytes bytes length index := send (msg_setVertexBytes bytes length index).
Definition setFragmentBytes bytes length index :=
  send (msg_setFragmentBytes bytes length index).
Definition setStencilFrontBackReferenceValues frontReferenceValue backReferenceValue :=
  send (msg_setStencilFrontReferenceValue frontReferenceValue backReferenceValue).
Definition setStencilReferenceValue referenceValue :=
  send (msg_setStencilReferenceValue referenceValue).
Definition drawPrimitives primitiveType vertexStart vertexCount :=
  send (msg_drawPrimitives primitiveType vertexStart vertexCount).
Definition drawPrimitives_instanced primitiveType vertexStart vertexCount instanceCount
  baseInstance :=
  send (msg_drawPrimitives_instanced primitiveType vertexStart vertexCount instanceCount
          baseInstance).
Definition drawPrimitives_indirect primitiveType indirectBuffer indirectBufferOffset :=
  send (msg_drawPrimitives_indirect primitiveType indirectBuffer indirectBufferOffset).
Definition drawIndexedPrimitives primitiveType indexCount indexType indexBuffer
  indexBufferOffset :=
  send (msg_drawIndexedPrimitives primitiveType indexCount indexType indexBuffer
          indexBufferOffset).
Definition drawIndexedPrimitives_instanced primitiveType indexCount indexType indexBuffer
  indexBufferOffset instanceCount baseVertex baseInstance :=
  send (msg_drawIndexedPrimitives_instanced primitiveType indexCount indexType indexBuffer
          indexBufferOffset instanceCount baseVertex baseInstance).
Definition drawIndexedPrimitives_indirect primitiveType indexType indexBuffer
  indexBufferOffset indirectBuffer indirectBufferOffset :=
  send (msg_drawIndexedPrimitives_indirect primitiveType indexType indexBuffer
          indexBufferOffset indirectBuffer indirectBufferOffset).

Definition endEncoding := send msg_endEncoding.

(** A call of one public method, with its arguments. *)
Inductive operation : Type :=
| op_setLabel (label : objc_id)
| op_pushDebugGroup (string : objc_id)
| op_popDebugGroup
| op_insertDebugSignpost (string : objc_id)
| op_setRenderPipelineState (pso : objc_id)
| op_setTriangleFillMode (fillMode : MTLTriangleFillMode)
| op_setFrontFacingWinding (winding : MTLWinding)
| op_setViewport (viewport : MTLViewport)
| op_setVertexBytes (bytes : ptr) (length index : NSUInteger)
| op_setFragmentBytes (bytes : ptr) (length index : NSUInteger)
| op_setStencilFrontBackReferenceValues (frontReferenceValue backReferenceValue : Z)
| op_setStencilReferenceValue (referenceValue : Z)
| op_setDepthStencilState (depthStencilState : objc_id)
| op_setScissorRect (scissorRect : MTLScissorRect)
| op_drawPrimitives (primitiveType : MTLPrimitiveType) (vertexStart vertexCount : NSUInteger)
| op_drawPrimitives_instanced (primitiveType : MTLPrimitiveType)
    (vertexStart vertexCount instanceCount baseInstance : NSUInteger)
| op_drawPrimitives_indirect (primitiveType : MTLPrimitiveType)
    (indirectBuffer : objc_id) (indirectBufferOffset : NSUInteger)
| op_drawIndexedPrimitives (primitiveType : MTLPrimitiveType) (indexCount : NSUInteger)
    (indexType : MTLIndexType) (indexBuffer : objc_id) (indexBufferOffset : NSUInteger)
| op_drawIndexedPrimitives_instanced (primitiveType : MTLPrimitiveType)
    (indexCount : NSUInteger) (indexType : MTLIndexType) (indexBuffer : objc_id)
    (indexBufferOffset instanceCount : NSUInteger) (baseVertex : NSInteger)
    (baseInstance : NSUInteger)
| op_drawIndexedPrimitives_indirect (primitiveType : MTLPrimitiveType)
    (indexType : MTLIndexType) (indexBuffer : objc_id) (indexBufferOffset : NSUInteger)
    (indirectBuffer : objc_id) (indirectBufferOffset : NSUInteger)
| op_endEncoding.

Definition invoke (op : operation) (e : RenderCommandEncoder) : RenderCommandEncoder :=
  match op with
  | op_setLabel label => setLabel label e
  | op_pushDebugGroup string => pushDebugGroup string e
  | op_popDebugGroup => popDebugGroup e
  | op_insertDebugSignpost string => insertDebugSignpost string e
  | op_setRenderPipelineState pso => setRenderPipelineState pso e
  | op_setTriangleFillMode fillMode => setTriangleFillMode fillMode e
  | op_setFrontFacingWinding winding => setFrontFacingWinding winding e
  | op_setViewport viewport => setViewport viewport e
  | op_setVertexBytes bytes length index => setVertexBytes bytes length index e
  | op_setFragmentBytes bytes length index => setFragmentBytes bytes length index e
  | op_setStencilFrontBackReferenceValues f b => setStencilFrontBackReferenceValues f b e
  | op_setStencilReferenceValue referenceValue => setStencilReferenceValue referenceValue e
  | op_setDepthStencilState depthStencilState => setDepthStencilState depthStencilState e
  | op_setScissorRect scissorRect => setScissorRect scissorRect e
  | op_drawPrimitives t vertexStart vertexCount => drawPrimitives t vertexStart vertexCount e
  | op_drawPrimitives_instanced t vertexStart vertexCount instanceCount baseInstance =>
      drawPrimitives_instanced t vertexStart vertexCount instanceCount baseInstance e
  | op_drawPrimitives_indirect t indirectBuffer indirectBufferOffset =>
      drawPrimitives_indirect t indirectBuffer indirectBufferOffset e
  | op_drawIndexedPrimitives t indexCount indexType indexBuffer indexBufferOffset =>
      drawIndexedPrimitives t indexCount indexType indexBuffer indexBufferOffset e
  | op_drawIndexedPrimitives_instanced t indexCount indexType indexBuffer indexBufferOffset
      instanceCount baseVertex baseInstance =>
      drawIndexedPrimitives_instanced t indexCount indexType indexBuffer indexBufferOffset
        instanceCount baseVertex baseInstance e
  | op_drawIndexedPrimitives_indirect t indexType indexBuffer indexBufferOffset
      indirectBuffer indirectBufferOffset =>
      drawIndexedPrimitives_indirect t indexType indexBuffer indexBufferOffset
        indirectBuffer indirectBufferOffset e
  | op_endEncoding => endEncoding e
  end.

(** A caller issuing one method call after another on the same wrapper. *)
Definition run (ops : list operation) (e : RenderCommandEncoder) : RenderCommandEncoder :=
  fold_left (fun e op => invoke op e) ops e.

(** The messages [e'] has received beyond the first [length (fCommandEncoder e)]. *)
Definition sent_since (e e' : RenderCommandEncoder) : list message :=
  drop (length (fCommandEncoder e)) (fCommandEncoder e').

(** Field-wise equality of two scissor rectangles. *)
Definition same_rect (r1 r2 : MTLScissorRect) : bool :=
  (x r1 =? x r2) && (y r1 =? y r2) && (width r1 =? width r2) && (height r1 =? height r2).

(** The tracked state of a wrapper, without the native encoder. *)
Definition tracked (e : RenderCommandEncoder)
  : objc_id * objc_id * MTLScissorRect * MTLTriangleFillMode :=
  (fCurrentRenderPipelineState e, fCurrentDepthStencilState e,
   fCurrentScissorRect e, fCurrentTriangleFillMode e).

(** Whether a method is one of the four caching setters. *)
Definition is_caching (op : operation) : bool :=
  match op with
  | op_setRenderPipelineState _ | op_setTriangleFillMode _
  | op_setDepthStencilState _ | op_setScissorRect _ => true
  | _ => false
  end.

(** The argument of the latest message of one kind in what the native
    encoder has received, if there is one; [pick] recognises the kind. *)
Definition latest {A : Type} (pick : message -> option A) (log : list message) : option A :=
  fold_left (fun acc msg => match pick msg with Some v => Some v | None => acc end) log None.

Definition pick_pipeline (msg : message) : option objc_id :=
  match msg with msg_setRenderPipelineState pso => Some pso | _ => None end.
Definition pick_depthStencil (msg : message) : option objc_id :=
  match msg with msg_setDepthStencilState ds => Some ds | _ => None end.
Definition pick_scissor (msg : message) : option MTLScissorRect :=
  match msg with msg_setScissorRect r => Some r | _ => None end.
Definition pick_fillMode (msg : message) : option MTLTriangleFillMode :=
  match msg with msg_setTriangleFillMode fillMode => Some fillMode | _ => None end.

(** The values of a sequence that differ from their predecessor, [prev]
    being the predecessor of the first. *)
Fixpoint changes {A : Type} (same : A -> A -> bool) (prev : A) (vs : list A) : list A :=
  match vs with
  | [] => []
  | v :: vs' => if same prev v then changes same v vs' else v :: changes same v vs'
  end.

(** The tracked state agrees with the native encoder: each slot holds the
    argument of the latest message of its kind that was forwarded, or its
    initial value when none has been. *)
Definition cache_matches_native (e : RenderCommandEncoder) : Prop :=
  fCurrentRenderPipelineState e
  = default (fCurrentRenderPipelineState Make) (latest pick_pipeline (fCommandEncoder e))
  /\ fCurrentDepthStencilState e
     = default (fCurrentDepthStencilState Make)
         (latest pick_depthStencil (fCommandEncoder e))
  /\ fCurrentScissorRect e
     = default (fCurrentScissorRect Make) (latest pick_scissor (fCommandEncoder e))
  /\ fCurrentTriangleFillMode e
     = default (fCurrentTriangleFillMode Make) (latest pick_fillMode (fCommandEncoder e)).

End Mtl.

(** * Properties *)

(** ** Memory *)

Section MemoryFacts.

Implicit Types (m : mem) (p dst q : ptr) (src : list byte).

Lemma memcpy_app dst src1 src2 m :
  memcpy dst (src1 ++ src2) m
  = memcpy (dst + Z.of_nat (length src1)) src2 (memcpy dst src1 m).
Proof.
  revert dst m; induction src1 as [|b src1 IH]; intros dst m; simpl.
  - now rewrite Z.add_0_r.
  - rewrite IH. f_equal. lia.
Qed.

(** A copy leaves every address outside its destination range alone. *)
Lemma memcpy_lookup_outside dst src m q :
  q < dst \/ dst + Z.of_nat (length src) <= q ->
  memcpy dst src m !! q = m !! q.
Proof.
  revert dst m; induction src as [|b src IH]; intros dst m Hq; simpl in *.
  - reflexivity.
  - rewrite IH by lia. apply lookup_insert_ne. lia.
Qed.

Lemma read_memcpy_disjoint p n dst src m :
  p + Z.of_nat n <= dst \/ dst + Z.of_nat (length src) <= p ->
  read p n (memcpy dst src m) = read p n m.
Proof.
  revert p; induction n as [|n IH]; intros p Hd; simpl.
  - reflexivity.
  - rewrite memcpy_lookup_outside by lia. rewrite IH by lia. reflexivity.
Qed.

(** Reading back what was just copied. *)
Lemma read_memcpy dst src m :
  read dst (length src) (memcpy dst src m) = Some src.
Proof.
  revert dst m; induction src as [|b src IH]; intros dst m; simpl.
  - reflexivity.
  - rewrite memcpy_lookup_outside by lia.
    rewrite lookup_insert_eq, IH. reflexivity.
Qed.

Lemma read_memcpy_prefix dst src1 src2 m :
  read dst (length src1) (memcpy dst (src1 ++ src2) m) = Some src1.
Proof.
  rewrite memcpy_app, read_memcpy_disjoint by lia. apply read_memcpy.
Qed.

End MemoryFacts.

(** ** The vertex writer *)

Module WriterProofs.
Import VertexWriter.

Lemma state_eta (s : state) : {| writer := {| fPtr := cursor s |}; ram := ram s |} = s.
Proof. destruct s as [[p] m]; reflexivity. Qed.

Lemma copy_advance_nothing (s : state) : copy_advance [] 0 s = s.
Proof.
  unfold copy_advance, SkTAddOffset; simpl. rewrite Z.add_0_r. apply state_eta.
Qed.

(** Two bumps in a row are one bump over the concatenated bytes. *)
Lemma copy_advance_twice (src1 src2 : list byte) (n2 : Z) (s : state) :
  copy_advance src2 n2 (copy_advance src1 (Z.of_nat (length src1)) s)
  = copy_advance (src1 ++ src2) (Z.of_nat (length src1) + n2) s.
Proof.
  unfold copy_advance, cursor, SkTAddOffset; simpl.
  rewrite memcpy_app, Z.add_assoc. reflexivity.
Qed.

Lemma write_app (args1 args2 : list Arg) (s : state) :
  write (args1 ++ args2) s = write args2 (write args1 s).
Proof. revert s; induction args1 as [|a args1 IH]; intros s; simpl; auto. Qed.

(** A variadic call is the same as one call per argument. *)
Lemma write_each_write (args : list Arg) (s : state) : write_each args s = write args s.
Proof.
  unfold write_each. revert s; induction args as [|a args IH]; intros s; simpl; auto.
Qed.

Lemma cursor_copy_advance (src : list byte) (n : Z) (s : state) :
  cursor (copy_advance src n s) = cursor s + n.
Proof. reflexivity. Qed.

Lemma cursor_write_value (a : Arg) (s : state) :
  cursor (write_value a s) = cursor s + footprint a.
Proof.
  revert s; induction a as [T HT val|T HT val|W HW color|c v IH|T HT|vector]; intros s; simpl.
  - reflexivity.
  - reflexivity.
  - destruct (fWideColor color); unfold write_pod.
    + rewrite !cursor_copy_advance. lia.
    + rewrite cursor_copy_advance. lia.
  - destruct c; [apply IH | lia].
  - reflexivity.
  - reflexivity.
Qed.

Lemma cursor_write (args : list Arg) (s : state) :
  cursor (write args s) = cursor s + total (map footprint args).
Proof.
  revert s; induction args as [|a args IH]; intros s; simpl.
  - lia.
  - rewrite IH, cursor_write_value. lia.
Qed.

Lemma footprint_scalars (vals : list Scalar) :
  map footprint (map scalar_arg vals) = map scalar_size vals.
Proof. rewrite map_map. reflexivity. Qed.

Lemma length_scalar_bytes (v : Scalar) : Z.of_nat (length (scalar_bytes v)) = scalar_size v.
Proof. unfold scalar_bytes, scalar_size. now rewrite object_repr_length. Qed.

Lemma length_scalars_bytes (vals : list Scalar) :
  Z.of_nat (length (flat_map scalar_bytes vals)) = total (map scalar_size vals).
Proof.
  induction vals as [|v vals IH]; simpl; [reflexivity|].
  rewrite length_app, Nat2Z.inj_add, IH, length_scalar_bytes. reflexivity.
Qed.

(** A run of scalar writes is one copy of the concatenated object
    representations. *)
Lemma write_scalars (vals : list Scalar) (s : state) :
  write (map scalar_arg vals) s
  = copy_advance (flat_map scalar_bytes vals) (total (map scalar_size vals)) s.
Proof.
  revert s; induction vals as [|v vals IH]; intros s; simpl.
  - symmetry; apply copy_advance_nothing.
  - rewrite IH. unfold write_pod. fold (scalar_bytes v).
    change (Z.of_nat (sizeof (scalar_type v))) with (scalar_size v).
    rewrite <- (length_scalar_bytes v) at 1.
    rewrite copy_advance_twice, length_scalar_bytes. reflexivity.
Qed.

(** C3: For every sequence of scalar writes with value sizes [s1..sn], the
    cursor afterwards is the starting address plus [s1 + ... + sn]; this
    holds for the values passed to one variadic [write] and for one
    [write] call per value alike. *)
Theorem write_scalars_cursor (vals : list Scalar) (s : state) :
  cursor (write (map scalar_arg vals) s) = cursor s + total (map scalar_size vals)
  /\ cursor (write_each (map scalar_arg vals) s) = cursor s + total (map scalar_size vals).
Proof.
  assert (Hone : cursor (write (map scalar_arg vals) s)
                 = cursor s + total (map scalar_size vals)).
  { pose proof (cursor_write (map scalar_arg vals) s) as H.
    rewrite footprint_scalars in H. exact H. }
  split; [exact Hone|].
  pose proof (write_each_write (map scalar_arg vals) s) as Heach.
  rewrite Heach. exact Hone.
Qed.

Lemma read_back_scalars (vals : list Scalar) (s : state) :
  read (cursor s) (length (flat_map scalar_bytes vals))
       (ram (write (map scalar_arg vals) s))
  = Some (flat_map scalar_bytes vals).
Proof. rewrite write_scalars. simpl. apply read_memcpy. Qed.

(** C7: A conditional value with a false condition leaves the cursor where
    it is (an advance of zero bytes) and the buffer as it is; with a true
    condition the write is the unconditional write of the wrapped value,
    alone or followed by further arguments. *)
Theorem conditional_write (value : Arg) (remainder : list Arg) (s : state) :
  cursor (write [If false value] s) = cursor s + 0
  /\ ram (write [If false value] s) = ram s
  /\ write (If false value :: remainder) s = write remainder s
  /\ write [If true value] s = write [value] s
  /\ write (If true value :: remainder) s = write (value :: remainder) s.
Proof. simpl. rewrite Z.add_0_r. repeat split; reflexivity. Qed.

Section Color.
Context {W : Type} `{Pod W}.

Lemma write_wide (color : GrVertexColor W) (s : state) :
  fWideColor color = true ->
  write [Color color] s
  = write (map scalar_arg (map scalar_of
             [fColor0 color; fColor1 color; fColor2 color; fColor3 color])) s.
Proof. intros Hw; simpl. rewrite Hw. reflexivity. Qed.

Lemma write_narrow (color : GrVertexColor W) (s : state) :
  fWideColor color = false ->
  write [Color color] s = write (map scalar_arg (map scalar_of [fColor0 color])) s.
Proof. intros Hw; simpl. rewrite Hw. reflexivity. Qed.

(** C8: Writing a colour record always writes the first packed word at
    the cursor; a narrow record writes that word only and advances the
    cursor by one word, a wide record writes the three further words
    after it and advances the cursor by four words. *)
Theorem color_write (color : GrVertexColor W) (s : state) :
  let s' := write [Color color] s in
  let words :=
    if fWideColor color
    then object_repr (fColor0 color) ++ object_repr (fColor1 color) ++
         object_repr (fColor2 color) ++ object_repr (fColor3 color)
    else object_repr (fColor0 color) in
  read (cursor s) (sizeof W) (ram s') = Some (object_repr (fColor0 color))
  /\ cursor s' = cursor s + (if fWideColor color then 4 else 1) * Z.of_nat (sizeof W)
  /\ ram s' = memcpy (cursor s) words (ram s)
  /\ read (cursor s) ((if fWideColor color then 4 else 1) * sizeof W) (ram s')
     = Some words.
Proof.
  intros s' words. subst s' words.
  pose proof (object_repr_length (fColor0 color)) as L0.
  pose proof (object_repr_length (fColor1 color)) as L1.
  pose proof (object_repr_length (fColor2 color)) as L2.
  pose proof (object_repr_length (fColor3 color)) as L3.
  destruct (fWideColor color) eqn:Hw.
  - rewrite (write_wide color s Hw), write_scalars.
    unfold scalar_size, scalar_bytes, scalar_of, copy_advance.
    cbn [map flat_map scalar_val scalar_type scalar_pod ram cursor writer fPtr
         total fold_right].
    rewrite app_nil_r. repeat split.
    + rewrite <- L0. apply read_memcpy_prefix.
    + unfold SkTAddOffset. lia.
    + match goal with |- read _ ?n (memcpy _ ?bs _) = _ =>
        replace n with (length bs) end.
      * apply read_memcpy.
      * rewrite !length_app, L0, L1, L2, L3. lia.
  - rewrite (write_narrow color s Hw), write_scalars.
    unfold scalar_size, scalar_bytes, scalar_of, copy_advance.
    cbn [map flat_map scalar_val scalar_type scalar_pod ram cursor writer fPtr
         total fold_right].
    rewrite app_nil_r. repeat split.
    + rewrite <- L0. apply read_memcpy.
    + unfold SkTAddOffset. lia.
    + rewrite Nat.mul_1_l, <- L0. apply read_memcpy.
Qed.

End Color.

Section Typed.
Context {T : Type} `{Pod T}.

Lemma scalar_arg_of (vals : list T) :
  map scalar_arg (map scalar_of vals) = map Plain vals.
Proof. rewrite map_map. reflexivity. Qed.

Lemma scalar_bytes_of (vals : list T) :
  flat_map scalar_bytes (map scalar_of vals) = flat_map object_repr vals.
Proof. induction vals as [|v vals IH]; simpl; [|rewrite IH]; reflexivity. Qed.

Lemma length_flat_repr (vals : list T) :
  length (flat_map object_repr vals) = (length vals * sizeof T)%nat.
Proof.
  induction vals as [|v vals IH]; simpl; [reflexivity|].
  rewrite length_app, IH, object_repr_length. reflexivity.
Qed.

(** The first [n] elements occupy the first [n * sizeof(T)] bytes. *)
Lemma take_flat_repr (vals : list T) (n : nat) :
  take (n * sizeof T) (flat_map object_repr vals) = flat_map object_repr (take n vals).
Proof.
  revert n; induction vals as [|v vals IH]; intros [|n]; simpl; try reflexivity.
  - now rewrite take_nil.
  - rewrite <- IH. apply take_app_add'. symmetry. apply object_repr_length.
Qed.

(** Typed scalars written one after the other are one copy of their
    concatenated object representations. *)
Lemma write_plain_run (vals : list T) (s : state) :
  write (map Plain vals) s
  = copy_advance (flat_map object_repr vals)
      (Z.of_nat (length vals) * Z.of_nat (sizeof T)) s.
Proof.
  rewrite <- scalar_arg_of, write_scalars, scalar_bytes_of.
  f_equal. rewrite <- length_scalars_bytes, scalar_bytes_of, length_flat_repr. lia.
Qed.

Lemma read_back_plain_run (vals : list T) (s : state) :
  read (cursor s) (length vals * sizeof T) (ram (write (map Plain vals) s))
  = Some (flat_map object_repr vals).
Proof.
  rewrite write_plain_run, <- length_flat_repr. simpl. apply read_memcpy.
Qed.

(** C4: [writeQuad] on a rectangle [(l, t, r, b)] writes, for corners 0,
    1, 2, 3 in this order, the pairs (l,t), (l,b), (r,t), (r,b) under the
    strip layout and (l,t), (l,b), (r,b), (r,t) under the fan layout:
    the writer ends in the state that eight scalar writes in that order
    produce, the cursor is eight scalars further, and the bytes read
    back from the starting address are the object representations of
    those coordinates in that order. *)
Theorem writeQuad_rect_corners (l t r b : T) (s : state) :
  let strip := {| strip_l := l; strip_t := t; strip_r := r; strip_b := b |} in
  let fan := {| fan_l := l; fan_t := t; fan_r := r; fan_b := b |} in
  let strip_order := [l; t;  l; b;  r; t;  r; b] in
  let fan_order := [l; t;  l; b;  r; b;  r; t] in
  (writeQuadValue 0 (QTriStrip strip) s = write [Plain l; Plain t] s
   /\ writeQuadValue 1 (QTriStrip strip) s = write [Plain l; Plain b] s
   /\ writeQuadValue 2 (QTriStrip strip) s = write [Plain r; Plain t] s
   /\ writeQuadValue 3 (QTriStrip strip) s = write [Plain r; Plain b] s)
  /\ (writeQuadValue 0 (QTriFan fan) s = write [Plain l; Plain t] s
     /\ writeQuadValue 1 (QTriFan fan) s = write [Plain l; Plain b] s
     /\ writeQuadValue 2 (QTriFan fan) s = write [Plain r; Plain b] s
     /\ writeQuadValue 3 (QTriFan fan) s = write [Plain r; Plain t] s)
  /\ writeQuad [QTriStrip strip] s = write (map Plain strip_order) s
  /\ writeQuad [QTriFan fan] s = write (map Plain fan_order) s
  /\ read (cursor s) (8 * sizeof T) (ram (writeQuad [QTriStrip strip] s))
     = Some (flat_map object_repr strip_order)
  /\ read (cursor s) (8 * sizeof T) (ram (writeQuad [QTriFan fan] s))
     = Some (flat_map object_repr fan_order)
  /\ cursor (writeQuad [QTriStrip strip] s) = cursor s + 8 * Z.of_nat (sizeof T)
  /\ cursor (writeQuad [QTriFan fan] s) = cursor s + 8 * Z.of_nat (sizeof T).
Proof.
  intros strip fan strip_order fan_order.
  assert (Hs : writeQuad [QTriStrip strip] s = write (map Plain strip_order) s)
    by reflexivity.
  assert (Hf : writeQuad [QTriFan fan] s = write (map Plain fan_order) s)
    by reflexivity.
  rewrite Hs, Hf.
  split; [repeat split|]. split; [repeat split|]. repeat split.
  - apply (read_back_plain_run strip_order s).
  - apply (read_back_plain_run fan_order s).
  - rewrite write_plain_run. reflexivity.
  - rewrite write_plain_run. reflexivity.
Qed.

(** C9: [writeArray(a, n)], for [n] within the array, leaves the buffer
    and the cursor exactly as [n] scalar writes of the first [n]
    elements of [a], one call after the other, and the [n * sizeof(T)]
    bytes read back from the starting address are the object
    representations of those elements, in order. *)
Theorem writeArray_as_writes (array : list T) (count : Z) (s : state) :
  0 <= count <= Z.of_nat (length array) ->
  let elements := take (Z.to_nat count) array in
  let s' := write_each (map Plain elements) s in
  writeArray array count s = Some s'
  /\ cursor s' = cursor s + count * Z.of_nat (sizeof T)
  /\ read (cursor s) (Z.to_nat count * sizeof T) (ram s')
     = Some (flat_map object_repr elements)
  /\ (count = Z.of_nat (length array) ->
      read (cursor s) (Z.to_nat count * sizeof T) (ram s')
      = Some (flat_map object_repr array)).
Proof.
  intros Hcount elements s'.
  pose proof (write_each_write (map Plain elements) s) as Heach.
  fold s' in Heach. rewrite Heach. clear s' Heach.
  assert (Hlen : length elements = Z.to_nat count).
  { subst elements. rewrite length_take. lia. }
  assert (Hread : read (cursor s) (Z.to_nat count * sizeof T)
                    (ram (write (map Plain elements) s))
                  = Some (flat_map object_repr elements)).
  { rewrite <- Hlen. apply read_back_plain_run. }
  repeat split.
  - unfold writeArray. destruct (decide _) as [_|Hn]; [|contradiction].
    f_equal. rewrite write_plain_run, Hlen.
    replace (Z.to_nat (count * Z.of_nat (sizeof T)))
      with (Z.to_nat count * sizeof T)%nat by lia.
    rewrite take_flat_repr. fold elements. f_equal. lia.
  - rewrite write_plain_run, Hlen. unfold copy_advance, cursor, SkTAddOffset; simpl. lia.
  - exact Hread.
  - intros Hall. rewrite Hread. subst elements.
    rewrite take_ge by lia. reflexivity.
Qed.

End Typed.

(** Moving a writer onto itself leaves it null: the second assignment
    overwrites the first. *)
Lemma move_assign_self (that : nat) (w : GrVertexWriter) (σ : objects) :
  σ !! that = Some w ->
  move_assign that that σ = Some (set_fPtr that nullptr σ).
Proof.
  intros Hthat. unfold move_assign, set_fPtr. rewrite Hthat.
  now rewrite insert_insert_eq.
Qed.

(** C10: After a move from the writer [that] into another writer [this],
    by move assignment or move construction, [this] holds the address that
    [that] had and [that] holds null, so [that] tests false, and the two
    compare equal only if both are null. *)
Theorem move_leaves_source_null (this that : nat) (w : GrVertexWriter) (σ : objects) :
  σ !! that = Some w ->
  this <> that ->
  exists σ' : objects,
    move_assign this that σ = Some σ'
    /\ move_construct this that σ = Some σ'
    /\ σ' !! this = Some {| fPtr := fPtr w |}
    /\ σ' !! that = Some {| fPtr := nullptr |}
    /\ (forall src, σ' !! that = Some src -> op_bool src = false)
    /\ (forall dst src, σ' !! this = Some dst -> σ' !! that = Some src ->
        op_eq dst src = true -> fPtr dst = nullptr /\ fPtr src = nullptr).
Proof.
  intros Hthat Hne.
  exists (set_fPtr that nullptr (set_fPtr this (fPtr w) σ)).
  assert (Hdst : set_fPtr that nullptr (set_fPtr this (fPtr w) σ) !! this
                 = Some {| fPtr := fPtr w |}).
  { unfold set_fPtr. rewrite lookup_insert_ne by congruence. apply lookup_insert_eq. }
  assert (Hsrc : set_fPtr that nullptr (set_fPtr this (fPtr w) σ) !! that
                 = Some {| fPtr := nullptr |}).
  { unfold set_fPtr. apply lookup_insert_eq. }
  split; [|split; [|split; [|split; [|split]]]].
  - unfold move_assign. now rewrite Hthat.
  - unfold move_construct, move_assign. now rewrite Hthat.
  - exact Hdst.
  - exact Hsrc.
  - intros src Hs. rewrite Hsrc in Hs. injection Hs as <-. reflexivity.
  - intros dst src Hd Hs Heq.
    rewrite Hdst in Hd. injection Hd as <-. rewrite Hsrc in Hs. injection Hs as <-.
    unfold op_eq in Heq; simpl in Heq. apply Z.eqb_eq in Heq.
    split; [exact Heq | reflexivity].
Qed.

Lemma writeArray_as_writes_witness :
  let array := [U16 513; U16 1027; U16 1541] in
  let s := {| writer := {| fPtr := 4096 |}; ram := ∅ |} in
  let s' := write_each (map Plain array) s in
  0 <= 3 <= Z.of_nat (length array)
  /\ writeArray array 3 s = Some s'
  /\ cursor s' = cursor s + 3 * Z.of_nat (sizeof uint16_t)
  /\ read (cursor s) (Z.to_nat 3 * sizeof uint16_t) (ram s')
     = Some (flat_map object_repr array)
  /\ (3 = Z.of_nat (length array) ->
      read (cursor s) (Z.to_nat 3 * sizeof uint16_t) (ram s')
      = Some (flat_map object_repr array)).
Proof.
  intros array s s'. split; [simpl; lia|].
  apply (writeArray_as_writes array 3 s). simpl; lia.
Defined.

Lemma move_leaves_source_null_witness :
  let σ : objects := {[ 1%nat := {| fPtr := 4096 |} ]} in
  σ !! 1%nat = Some {| fPtr := 4096 |}
  /\ 0%nat <> 1%nat
  /\ exists σ' : objects,
      move_assign 0 1 σ = Some σ'
      /\ move_construct 0 1 σ = Some σ'
      /\ σ' !! 0%nat = Some {| fPtr := 4096 |}
      /\ σ' !! 1%nat = Some {| fPtr := nullptr |}
      /\ (forall src, σ' !! 1%nat = Some src -> op_bool src = false)
      /\ (forall dst src, σ' !! 0%nat = Some dst -> σ' !! 1%nat = Some src ->
          op_eq dst src = true -> fPtr dst = nullptr /\ fPtr src = nullptr).
Proof.
  intros σ. split; [reflexivity|]. split; [lia|].
  apply (move_leaves_source_null 0 1 {| fPtr := 4096 |} σ); [reflexivity | lia].
Defined.

(** The rectangle (l=0, t=0, r=10, b=20) with 16-bit coordinates, written
    at address 4096 into empty memory: the bytes read back are, in order,
    (0,0), (0,20), (10,0), (10,20) for the strip and (0,0), (0,20),
    (10,20), (10,0) for the fan. *)
Example writeQuad_rect_example :
  let s := {| writer := {| fPtr := 4096 |}; ram := ∅ |} in
  let coords := flat_map (fun v => object_repr (U16 v)) in
  read 4096 16 (ram (writeQuad [QTriStrip {| strip_l := U16 0; strip_t := U16 0;
                                             strip_r := U16 10; strip_b := U16 20 |}] s))
  = Some (coords [0; 0;  0; 20;  10; 0;  10; 20])
  /\ read 4096 16 (ram (writeQuad [QTriFan {| fan_l := U16 0; fan_t := U16 0;
                                             fan_r := U16 10; fan_b := U16 20 |}] s))
  = Some (coords [0; 0;  0; 20;  10; 20;  10; 0]).
Proof. split; vm_compute; reflexivity. Qed.

(** A wide and a narrow colour of 32-bit words, one after the other: five
    words in all. *)
Example color_write_example :
  let wide := {| fColor0 := U32 1; fColor1 := U32 2; fColor2 := U32 3; fColor3 := U32 4;
                 fWideColor := true |} in
  let narrow := {| fColor0 := U32 5; fColor1 := U32 0; fColor2 := U32 0; fColor3 := U32 0;
                   fWideColor := false |} in
  let s := {| writer := {| fPtr := 4096 |}; ram := ∅ |} in
  cursor (write [Color wide; Color narrow] s) = 4096 + 20
  /\ read 4096 20 (ram (write [Color wide; Color narrow] s))
     = Some (flat_map (fun v => object_repr (U32 v)) [1; 2; 3; 4; 5]).
Proof. split; vm_compute; reflexivity. Qed.

End WriterProofs.

(** ** The render command encoder *)

Module EncoderProofs.
Import Mtl.

Lemma sent_since_app (e e' : RenderCommandEncoder) (msgs : list message) :
  fCommandEncoder e' = fCommandEncoder e ++ msgs -> sent_since e e' = msgs.
Proof. intros He. unfold sent_since. rewrite He. apply drop_app_length. Qed.

(** What each caching setter does to the message log and to its slot. *)
Lemma log_setRenderPipelineState (pso : objc_id) (e : RenderCommandEncoder) :
  fCommandEncoder (setRenderPipelineState pso e)
  = fCommandEncoder e ++
    (if fCurrentRenderPipelineState e =? pso then [] else [msg_setRenderPipelineState pso]).
Proof.
  unfold setRenderPipelineState.
  destruct (fCurrentRenderPipelineState e =? pso); simpl; [now rewrite app_nil_r | reflexivity].
Qed.

Lemma slot_setRenderPipelineState (pso : objc_id) (e : RenderCommandEncoder) :
  fCurrentRenderPipelineState (setRenderPipelineState pso e) = pso.
Proof.
  unfold setRenderPipelineState.
  destruct (fCurrentRenderPipelineState e =? pso) eqn:E; simpl; [|reflexivity].
  now apply Z.eqb_eq.
Qed.

Lemma log_setDepthStencilState (ds : objc_id) (e : RenderCommandEncoder) :
  fCommandEncoder (setDepthStencilState ds e)
  = fCommandEncoder e ++
    (if ds =? fCurrentDepthStencilState e then [] else [msg_setDepthStencilState ds]).
Proof.
  unfold setDepthStencilState.
  destruct (ds =? fCurrentDepthStencilState e); simpl; [now rewrite app_nil_r | reflexivity].
Qed.

Lemma log_setTriangleFillMode (fillMode : MTLTriangleFillMode) (e : RenderCommandEncoder) :
  fCommandEncoder (setTriangleFillMode fillMode e)
  = fCommandEncoder e ++
    (if fCurrentTriangleFillMode e =? fillMode then [] else [msg_setTriangleFillMode fillMode]).
Proof.
  unfold setTriangleFillMode.
  destruct (fCurrentTriangleFillMode e =? fillMode); simpl; [now rewrite app_nil_r | reflexivity].
Qed.

Lemma same_rect_eq (r1 r2 : MTLScissorRect) : same_rect r1 r2 = true <-> r1 = r2.
Proof.
  unfold same_rect. rewrite !andb_true_iff, !Z.eqb_eq.
  destruct r1, r2; simpl. split.
  - intros [[[-> ->] ->] ->]. reflexivity.
  - intros [= -> -> -> ->]. auto.
Qed.

Lemma same_rect_neq (r1 r2 : MTLScissorRect) : r1 <> r2 -> same_rect r1 r2 = false.
Proof.
  intros Hne. destruct (same_rect r1 r2) eqn:E; [|reflexivity].
  apply same_rect_eq in E. contradiction.
Qed.

Lemma same_rect_refl (r : MTLScissorRect) : same_rect r r = true.
Proof. now apply same_rect_eq. Qed.

Lemma log_setScissorRect (r : MTLScissorRect) (e : RenderCommandEncoder) :
  fCommandEncoder (setScissorRect r e)
  = fCommandEncoder e ++
    (if same_rect (fCurrentScissorRect e) r then [] else [msg_setScissorRect r]).
Proof.
  unfold setScissorRect, same_rect.
  destruct (x (fCurrentScissorRect e) =? x r), (y (fCurrentScissorRect e) =? y r),
    (width (fCurrentScissorRect e) =? width r), (height (fCurrentScissorRect e) =? height r);
    simpl; try reflexivity.
  now rewrite app_nil_r.
Qed.

Lemma slot_setScissorRect (r : MTLScissorRect) (e : RenderCommandEncoder) :
  fCurrentScissorRect (setScissorRect r e) = r.
Proof.
  pose proof (same_rect_eq (fCurrentScissorRect e) r) as Heq.
  unfold setScissorRect, same_rect in *.
  destruct (x (fCurrentScissorRect e) =? x r), (y (fCurrentScissorRect e) =? y r),
    (width (fCurrentScissorRect e) =? width r), (height (fCurrentScissorRect e) =? height r);
    simpl in *; try reflexivity.
  now apply Heq.
Qed.

Lemma sent_since_self (e : RenderCommandEncoder) : sent_since e e = [].
Proof. apply sent_since_app. now rewrite app_nil_r. Qed.

Lemma sent_since_send (msg : message) (e : RenderCommandEncoder) :
  sent_since e (send msg e) = [msg].
Proof. now apply sent_since_app. Qed.

Ltac unfold_methods :=
  unfold setLabel, pushDebugGroup, popDebugGroup, insertDebugSignpost,
    setFrontFacingWinding, setViewport, setVertexBytes, setFragmentBytes,
    setStencilFrontBackReferenceValues, setStencilReferenceValue,
    drawPrimitives, drawPrimitives_instanced, drawPrimitives_indirect,
    drawIndexedPrimitives, drawIndexedPrimitives_instanced,
    drawIndexedPrimitives_indirect, endEncoding.

(** A method call behaves the same whether or not some message was sent
    to the native encoder just before it: the wrapper's decisions depend
    on the tracked state alone. *)
Lemma invoke_after_send (op : operation) (msg : message) (e : RenderCommandEncoder) :
  fCommandEncoder (invoke op (send msg e))
  = fCommandEncoder e ++ msg :: sent_since e (invoke op e)
  /\ tracked (invoke op (send msg e)) = tracked (invoke op e).
Proof.
  destruct op; cbn [invoke]; unfold_methods;
    try (rewrite sent_since_send; split; [simpl; now rewrite <- app_assoc | reflexivity]).
  - unfold setRenderPipelineState. cbn [send fCurrentRenderPipelineState].
    destruct (negb _).
    + split; [|reflexivity]. cbn [fCommandEncoder send].
      erewrite sent_since_app by (cbn [fCommandEncoder send]; reflexivity).
      now rewrite <- app_assoc.
    + rewrite sent_since_self. split; reflexivity.
  - unfold setTriangleFillMode. cbn [send fCurrentTriangleFillMode].
    destruct (negb _).
    + split; [|reflexivity]. cbn [fCommandEncoder send].
      erewrite sent_since_app by (cbn [fCommandEncoder send]; reflexivity).
      now rewrite <- app_assoc.
    + rewrite sent_since_self. split; reflexivity.
  - unfold setDepthStencilState. cbn [send fCurrentDepthStencilState].
    destruct (negb _).
    + split; [|reflexivity]. cbn [fCommandEncoder send].
      erewrite sent_since_app by (cbn [fCommandEncoder send]; reflexivity).
      now rewrite <- app_assoc.
    + rewrite sent_since_self. split; reflexivity.
  - unfold setScissorRect. cbn [send fCurrentScissorRect].
    destruct (_ || _).
    + split; [|reflexivity]. cbn [fCommandEncoder send].
      erewrite sent_since_app by (cbn [fCommandEncoder send]; reflexivity).
      now rewrite <- app_assoc.
    + rewrite sent_since_self. split; reflexivity.
Qed.

(** C1, as stated, fails: a fresh wrapper that is first given the all-zero
    scissor rectangle forwards nothing, because that rectangle equals the
    initial cache contents. *)
Lemma fresh_zero_scissor_not_forwarded :
  let r := {| x := 0; y := 0; width := 0; height := 0 |} in
  fCommandEncoder (setScissorRect r Make) = []
  /\ fCommandEncoder (setScissorRect r Make) <> [msg_setScissorRect r].
Proof. split; [reflexivity | discriminate]. Qed.

(** C1 (amended): Each cache slot of a fresh wrapper holds a fixed initial
    value: nil for the pipeline and depth/stencil objects,
    [(MTLTriangleFillMode)-1], that is 2^64 - 1, for the fill mode, and the
    all-zero rectangle for the scissor. The first state-setting call
    forwards its message exactly when the value passed differs from that
    initial value; in particular both fill-mode enumerators are
    forwarded. *)
Theorem first_set_forwards_unless_initial :
  (forall pso : objc_id,
      fCommandEncoder (setRenderPipelineState pso Make)
      = if pso =? nil then [] else [msg_setRenderPipelineState pso])
  /\ (forall depthStencilState : objc_id,
      fCommandEncoder (setDepthStencilState depthStencilState Make)
      = if depthStencilState =? nil then []
        else [msg_setDepthStencilState depthStencilState])
  /\ (forall fillMode : MTLTriangleFillMode,
      fCommandEncoder (setTriangleFillMode fillMode Make)
      = if fillMode =? 2 ^ 64 - 1 then [] else [msg_setTriangleFillMode fillMode])
  /\ (forall scissorRect : MTLScissorRect,
      fCommandEncoder (setScissorRect scissorRect Make)
      = if same_rect scissorRect {| x := 0; y := 0; width := 0; height := 0 |}
        then [] else [msg_setScissorRect scissorRect])
  /\ fCommandEncoder (setTriangleFillMode MTLTriangleFillModeFill Make)
     = [msg_setTriangleFillMode MTLTriangleFillModeFill]
  /\ fCommandEncoder (setTriangleFillMode MTLTriangleFillModeLines Make)
     = [msg_setTriangleFillMode MTLTriangleFillModeLines].
Proof.
  split; [|split; [|split; [|split; [|split]]]]; try reflexivity.
  - intros pso. rewrite log_setRenderPipelineState. cbn [Make fCommandEncoder
      fCurrentRenderPipelineState app]. now rewrite (Z.eqb_sym nil pso).
  - intros ds. rewrite log_setDepthStencilState. reflexivity.
  - intros fillMode. rewrite log_setTriangleFillMode.
    cbn [Make fCommandEncoder fCurrentTriangleFillMode app].
    change (to_NSUInteger (-1)) with (2 ^ 64 - 1).
    now rewrite (Z.eqb_sym (2 ^ 64 - 1) fillMode).
  - intros r. rewrite log_setScissorRect.
    cbn [Make fCommandEncoder fCurrentScissorRect app].
    unfold same_rect. cbn [x y width height].
    now rewrite (Z.eqb_sym 0 (x r)), (Z.eqb_sym 0 (y r)), (Z.eqb_sym 0 (width r)),
      (Z.eqb_sym 0 (height r)).
Qed.

(** A method call only ever appends to what the native encoder has
    received. *)
Lemma invoke_appends (op : operation) (e : RenderCommandEncoder) :
  fCommandEncoder (invoke op e) = fCommandEncoder e ++ sent_since e (invoke op e).
Proof.
  destruct op; cbn [invoke]; unfold_methods;
    try (now rewrite sent_since_send).
  - rewrite log_setRenderPipelineState. f_equal. symmetry.
    apply sent_since_app, log_setRenderPipelineState.
  - rewrite log_setTriangleFillMode. f_equal. symmetry.
    apply sent_since_app, log_setTriangleFillMode.
  - rewrite log_setDepthStencilState. f_equal. symmetry.
    apply sent_since_app, log_setDepthStencilState.
  - rewrite log_setScissorRect. f_equal. symmetry.
    apply sent_since_app, log_setScissorRect.
Qed.

(** C2, as stated, fails: a draw issued after [endEncoding] reaches the
    native encoder. *)
Lemma draw_after_endEncoding_forwarded :
  fCommandEncoder (run [op_endEncoding; op_drawPrimitives 3 0 3] Make)
  = [msg_endEncoding; msg_drawPrimitives 3 0 3]
  /\ ~ (forall (e : RenderCommandEncoder) (op : operation),
          sent_since (endEncoding e) (invoke op (endEncoding e)) = []).
Proof.
  split; [reflexivity|].
  intros Hrej. specialize (Hrej Make (op_drawPrimitives 3 0 3)). discriminate Hrej.
Qed.

(** C2 (amended): [endEncoding] forwards the end-of-encoding message to
    the native encoder and changes nothing else: the wrapper keeps no
    closed state. Any operation issued afterwards is handled exactly as
    it would have been before: it forwards the same messages, which
    reach the native encoder after the end-of-encoding message, and it
    leaves the tracked state the same. *)
Theorem endEncoding_keeps_no_closed_state (e : RenderCommandEncoder) (op : operation) :
  fCommandEncoder (endEncoding e) = fCommandEncoder e ++ [msg_endEncoding]
  /\ tracked (endEncoding e) = tracked e
  /\ fCommandEncoder (invoke op e) = fCommandEncoder e ++ sent_since e (invoke op e)
  /\ fCommandEncoder (invoke op (endEncoding e))
     = fCommandEncoder e ++ msg_endEncoding :: sent_since e (invoke op e)
  /\ sent_since (endEncoding e) (invoke op (endEncoding e)) = sent_since e (invoke op e)
  /\ tracked (invoke op (endEncoding e)) = tracked (invoke op e).
Proof.
  destruct (invoke_after_send op msg_endEncoding e) as [Hlog Htracked].
  split; [reflexivity|]. split; [reflexivity|]. split; [apply invoke_appends|].
  split; [exact Hlog|]. split; [|exact Htracked].
  apply sent_since_app. unfold endEncoding. rewrite Hlog.
  cbn [send fCommandEncoder]. now rewrite <- app_assoc.
Qed.

(** C5: On a wrapper whose cached pipeline object is not [a]: setting [a]
    twice in a row forwards one message; setting [a] and then a different
    [b] forwards two; and in the sequence [a], [b], [c], [b] with [c]
    different from [b] the fourth call forwards again, because the cache
    holds the value set last and nothing older. *)
Theorem pipeline_cache_last_value (e : RenderCommandEncoder) (a b c : objc_id) :
  fCurrentRenderPipelineState e <> a ->
  a <> b ->
  b <> c ->
  let set := op_setRenderPipelineState in
  let msg := msg_setRenderPipelineState in
  fCommandEncoder (run [set a; set a] e) = fCommandEncoder e ++ [msg a]
  /\ fCommandEncoder (run [set a; set b] e) = fCommandEncoder e ++ [msg a; msg b]
  /\ fCommandEncoder (run [set a; set b; set c; set b] e)
     = fCommandEncoder e ++ [msg a; msg b; msg c; msg b]
  /\ fCommandEncoder (run [set a; set b; set c; set b] e)
     = fCommandEncoder (run [set a; set b; set c] e) ++ [msg b]
  /\ (forall pso e', fCurrentRenderPipelineState (setRenderPipelineState pso e') = pso).
Proof.
  intros Hea Hab Hbc set msg. subst set msg.
  apply Z.eqb_neq in Hea, Hab. pose proof Hbc as Hcb.
  apply Z.eqb_neq in Hbc. apply not_eq_sym, Z.eqb_neq in Hcb.
  split; [|split; [|split; [|split]]].
  - cbn [run fold_left invoke].
    rewrite !log_setRenderPipelineState, !slot_setRenderPipelineState, Hea, Z.eqb_refl.
    now rewrite app_nil_r.
  - cbn [run fold_left invoke].
    rewrite !log_setRenderPipelineState, !slot_setRenderPipelineState, Hea, Hab.
    now rewrite <- app_assoc.
  - cbn [run fold_left invoke].
    rewrite !log_setRenderPipelineState, !slot_setRenderPipelineState, Hea, Hab, Hbc, Hcb.
    now rewrite <- !app_assoc.
  - cbn [run fold_left invoke].
    rewrite (log_setRenderPipelineState b), slot_setRenderPipelineState, Hcb.
    reflexivity.
  - apply slot_setRenderPipelineState.
Qed.

(** C6: The scissor cache compares rectangles field by field. On a
    wrapper whose cached rectangle is not [r]: setting [r] twice forwards
    one message; setting [r] and then any different rectangle forwards
    two, and changing a single one of the fields x, y, width or height
    already makes the rectangle different. *)
Theorem scissor_cache_fieldwise (e : RenderCommandEncoder) (r r' : MTLScissorRect)
    (x' y' width' height' : NSUInteger) :
  fCurrentScissorRect e <> r ->
  r <> r' ->
  x' <> x r -> y' <> y r -> width' <> width r -> height' <> height r ->
  let set := op_setScissorRect in
  let msg := msg_setScissorRect in
  let rx := {| x := x'; y := y r; width := width r; height := height r |} in
  let ry := {| x := x r; y := y'; width := width r; height := height r |} in
  let rw := {| x := x r; y := y r; width := width'; height := height r |} in
  let rh := {| x := x r; y := y r; width := width r; height := height' |} in
  fCommandEncoder (run [set r; set r] e) = fCommandEncoder e ++ [msg r]
  /\ fCommandEncoder (run [set r; set r'] e) = fCommandEncoder e ++ [msg r; msg r']
  /\ fCommandEncoder (run [set r; set rx] e) = fCommandEncoder e ++ [msg r; msg rx]
  /\ fCommandEncoder (run [set r; set ry] e) = fCommandEncoder e ++ [msg r; msg ry]
  /\ fCommandEncoder (run [set r; set rw] e) = fCommandEncoder e ++ [msg r; msg rw]
  /\ fCommandEncoder (run [set r; set rh] e) = fCommandEncoder e ++ [msg r; msg rh].
Proof.
  intros Her Hrr Hx Hy Hw Hh set msg rx ry rw rh. subst set msg.
  assert (Hone : fCommandEncoder (run [op_setScissorRect r; op_setScissorRect r] e)
                 = fCommandEncoder e ++ [msg_setScissorRect r]).
  { cbn [run fold_left invoke].
    rewrite !log_setScissorRect, !slot_setScissorRect, same_rect_refl.
    rewrite (same_rect_neq _ _ Her). now rewrite app_nil_r. }
  assert (Htwo : forall r2, r <> r2 ->
            fCommandEncoder (run [op_setScissorRect r; op_setScissorRect r2] e)
            = fCommandEncoder e ++ [msg_setScissorRect r; msg_setScissorRect r2]).
  { intros r2 Hne. cbn [run fold_left invoke].
    rewrite !log_setScissorRect, !slot_setScissorRect.
    rewrite (same_rect_neq _ _ Her), (same_rect_neq _ _ Hne). now rewrite <- app_assoc. }
  split; [exact Hone|].
  repeat split; apply Htwo; try assumption;
    intros Heq; subst rx ry rw rh; destruct r; simpl in *; congruence.
Qed.

(** The sequence of C5 on a fresh wrapper with the objects at addresses 1,
    2 and 3. *)
Lemma pipeline_cache_last_value_witness :
  let set := op_setRenderPipelineState in
  let msg := msg_setRenderPipelineState in
  (fCurrentRenderPipelineState Make <> 1 /\ 1 <> 2 /\ 2 <> 3)
  /\ fCommandEncoder (run [set 1; set 1] Make) = [msg 1]
  /\ fCommandEncoder (run [set 1; set 2] Make) = [msg 1; msg 2]
  /\ fCommandEncoder (run [set 1; set 2; set 3; set 2] Make) = [msg 1; msg 2; msg 3; msg 2]
  /\ fCommandEncoder (run [set 1; set 2; set 3; set 2] Make)
     = fCommandEncoder (run [set 1; set 2; set 3] Make) ++ [msg 2]
  /\ (forall pso e', fCurrentRenderPipelineState (setRenderPipelineState pso e') = pso).
Proof.
  split; [repeat split; discriminate|].
  apply (pipeline_cache_last_value Make 1 2 3); discriminate.
Defined.

(** The rectangle (0,0,100,100) on a fresh wrapper, set twice, and then
    followed by a rectangle with one field changed. *)
Lemma scissor_cache_fieldwise_witness :
  let set := op_setScissorRect in
  let msg := msg_setScissorRect in
  let r := {| x := 0; y := 0; width := 100; height := 100 |} in
  let r' := {| x := 0; y := 0; width := 50; height := 100 |} in
  let rx := {| x := 7; y := 0; width := 100; height := 100 |} in
  let ry := {| x := 0; y := 7; width := 100; height := 100 |} in
  let rh := {| x := 0; y := 0; width := 100; height := 50 |} in
  (fCurrentScissorRect Make <> r /\ r <> r')
  /\ fCommandEncoder (run [set r; set r] Make) = [msg r]
  /\ fCommandEncoder (run [set r; set r'] Make) = [msg r; msg r']
  /\ fCommandEncoder (run [set r; set rx] Make) = [msg r; msg rx]
  /\ fCommandEncoder (run [set r; set ry] Make) = [msg r; msg ry]
  /\ fCommandEncoder (run [set r; set r'] Make) = [msg r; msg r']
  /\ fCommandEncoder (run [set r; set rh] Make) = [msg r; msg rh].
Proof.
  split; [split; discriminate|].
  apply (scissor_cache_fieldwise Make
           {| x := 0; y := 0; width := 100; height := 100 |}
           {| x := 0; y := 0; width := 50; height := 100 |} 7 7 50 50);
    discriminate.
Defined.

End EncoderProofs.

(** ** Further properties of the vertex writer *)

Module WriterMore.
Import VertexWriter WriterProofs.

Lemma footprint_nonneg (a : Arg) : 0 <= footprint a.
Proof.
  induction a as [T HT val|T HT val|W HW color|c v IH|T HT|vector]; simpl; try lia.
  - destruct (fWideColor color); lia.
  - destruct c; [exact IH | lia].
Qed.

Lemma total_footprint_nonneg (args : list Arg) : 0 <= total (map footprint args).
Proof.
  induction args as [|a args IH]; simpl; [lia|].
  pose proof (footprint_nonneg a). lia.
Qed.

(** X1: Whatever the kinds of its arguments, [write] moves the cursor
    forward by the sum of their footprints (a skipped conditional counts
    zero, a colour one or four words, a [Skip] its type's size), and never
    backwards. *)
Theorem write_advances_by_footprint (args : list Arg) (s : state) :
  cursor (write args s) = cursor s + total (map footprint args)
  /\ cursor s <= cursor (write args s).
Proof.
  pose proof (cursor_write args s) as Hc.
  pose proof (total_footprint_nonneg args) as Hn.
  split; [exact Hc | lia].
Qed.

Lemma copy_advance_frame (src : list byte) (n : Z) (s : state) (q : ptr) :
  q < cursor s \/ cursor s + Z.of_nat (length src) <= q ->
  ram (copy_advance src n s) !! q = ram s !! q.
Proof. intros Hq. apply memcpy_lookup_outside. exact Hq. Qed.

Lemma write_pod_frame {T : Type} `{Pod T} (val : T) (s : state) (q : ptr) :
  q < cursor s \/ cursor s + Z.of_nat (sizeof T) <= q ->
  ram (write_pod val s) !! q = ram s !! q.
Proof.
  intros Hq. apply copy_advance_frame. now rewrite object_repr_length.
Qed.

Lemma write_fixed_array_frame {T : Type} `{Pod T} (val : list T) (s : state) (q : ptr) :
  q < cursor s \/ cursor s + Z.of_nat (length val) * Z.of_nat (sizeof T) <= q ->
  ram (write_fixed_array val s) !! q = ram s !! q.
Proof.
  intros Hq. apply copy_advance_frame. rewrite length_flat_repr. lia.
Qed.

Lemma write_value_frame (a : Arg) (s : state) (q : ptr) :
  q < cursor s \/ cursor s + footprint a <= q ->
  ram (write_value a s) !! q = ram s !! q.
Proof.
  revert s; induction a as [T HT val|T HT val|W HW color|c v IH|T HT|vector];
    intros s Hq; cbn [write_value footprint] in *.
  - now apply write_pod_frame.
  - now apply write_fixed_array_frame.
  - destruct (fWideColor color).
    + rewrite !write_pod_frame; [reflexivity|..];
        unfold write_pod; rewrite ?cursor_copy_advance; lia.
    + apply write_pod_frame. lia.
  - destruct c; [now apply IH | reflexivity].
  - reflexivity.
  - apply (write_fixed_array_frame (Sk4f_store vector)). exact Hq.
Qed.

Lemma write_frame_footprint (args : list Arg) (s : state) (q : ptr) :
  q < cursor s \/ cursor s + total (map footprint args) <= q ->
  ram (write args s) !! q = ram s !! q.
Proof.
  revert s; induction args as [|a args IH]; intros s Hq; simpl in *; [reflexivity|].
  pose proof (footprint_nonneg a). pose proof (total_footprint_nonneg args).
  rewrite IH by (rewrite cursor_write_value; lia).
  apply write_value_frame. lia.
Qed.

(** X2: [write] touches no address outside the span between the cursor
    before the call and the cursor after it: every byte below the old
    cursor and every byte at or above the new cursor is left as it was. *)
Theorem write_frame (args : list Arg) (s : state) (q : ptr) :
  q < cursor s \/ cursor (write args s) <= q ->
  ram (write args s) !! q = ram s !! q.
Proof.
  intros Hq. apply write_frame_footprint.
  pose proof (cursor_write args s). lia.
Qed.

Lemma write_frame_witness :
  let s := {| writer := {| fPtr := 4096 |}; ram := {[ 4098 := Byte.xff ]} |} in
  let args := [Plain (U16 7)] in
  (4098 < cursor s \/ cursor (write args s) <= 4098)
  /\ ram (write args s) !! 4098 = ram s !! 4098.
Proof.
  intros s args.
  assert (Hq : 4098 < cursor s \/ cursor (write args s) <= 4098)
    by (right; vm_compute; discriminate).
  split; [exact Hq | exact (write_frame args s 4098 Hq)].
Defined.

Lemma write_pod_copy {T : Type} `{Pod T} (val : T) (s : state) :
  write_pod val s
  = copy_advance (object_repr val) (Z.of_nat (length (object_repr val))) s.
Proof. unfold write_pod. now rewrite object_repr_length. Qed.

Lemma copy_advance_join (src1 src2 : list byte) (s : state) :
  copy_advance src2 (Z.of_nat (length src2))
    (copy_advance src1 (Z.of_nat (length src1)) s)
  = copy_advance (src1 ++ src2) (Z.of_nat (length (src1 ++ src2))) s.
Proof. rewrite copy_advance_twice, length_app, Nat2Z.inj_add. reflexivity. Qed.

Lemma write_value_packed (a : Arg) (s : state) :
  no_skip a = true ->
  write_value a s = copy_advance (arg_bytes a) (Z.of_nat (length (arg_bytes a))) s
  /\ Z.of_nat (length (arg_bytes a)) = footprint a.
Proof.
  revert s; induction a as [T HT val|T HT val|W HW color|c v IH|T HT|vector];
    intros s Hns; cbn [write_value footprint arg_bytes no_skip] in *.
  - unfold write_pod. now rewrite object_repr_length.
  - unfold write_fixed_array. rewrite length_flat_repr.
    split; [f_equal|]; lia.
  - pose proof (object_repr_length (fColor0 color)) as L0.
    pose proof (object_repr_length (fColor1 color)) as L1.
    pose proof (object_repr_length (fColor2 color)) as L2.
    pose proof (object_repr_length (fColor3 color)) as L3.
    destruct (fWideColor color).
    + rewrite !write_pod_copy, !copy_advance_join, <- ?app_assoc.
      split; [reflexivity|]. rewrite !length_app, L0, L1, L2, L3. lia.
    + rewrite write_pod_copy, app_nil_r, L0. split; [reflexivity | lia].
  - destruct c; [now apply IH|]. simpl. split; [|reflexivity].
    symmetry; apply copy_advance_nothing.
  - discriminate.
  - unfold write_fixed_array. rewrite length_flat_repr.
    change (length (Sk4f_store vector)) with 4%nat.
    split; [f_equal|]; lia.
Qed.

Lemma write_packed_run (args : list Arg) (s : state) :
  forallb no_skip args = true ->
  write args s
  = copy_advance (flat_map arg_bytes args)
      (Z.of_nat (length (flat_map arg_bytes args))) s
  /\ Z.of_nat (length (flat_map arg_bytes args)) = total (map footprint args).
Proof.
  revert s; induction args as [|a args IH]; intros s Hns; simpl in *.
  - split; [symmetry; apply copy_advance_nothing | reflexivity].
  - apply andb_true_iff in Hns as [Ha Hargs].
    destruct (write_value_packed a s Ha) as [Hw Hl].
    destruct (IH (write_value a s) Hargs) as [Hws Hls].
    rewrite Hws, Hw, copy_advance_twice, length_app, Nat2Z.inj_add.
    split; [reflexivity | lia].
Qed.

(** X3: Fields are packed back to back in the order they are passed: when
    no argument is a [Skip], the bytes read back between the old cursor and
    the new one are the object representations of the arguments, one
    after the other with nothing in between. *)
Theorem write_packed (args : list Arg) (s : state) :
  forallb no_skip args = true ->
  Z.of_nat (length (flat_map arg_bytes args)) = cursor (write args s) - cursor s
  /\ read (cursor s) (length (flat_map arg_bytes args)) (ram (write args s))
     = Some (flat_map arg_bytes args).
Proof.
  intros Hns. destruct (write_packed_run args s Hns) as [Hw Hl].
  pose proof (cursor_write args s) as Hc.
  split; [lia|]. rewrite Hw. simpl. apply read_memcpy.
Qed.

Lemma write_packed_witness :
  let s := {| writer := {| fPtr := 4096 |}; ram := ∅ |} in
  let narrow := {| fColor0 := U32 5; fColor1 := U32 0; fColor2 := U32 0; fColor3 := U32 0;
                   fWideColor := false |} in
  let args := [Plain (U16 7); If false (Plain (U16 9)); Color narrow; FixedArray [U16 1; U16 2]] in
  forallb no_skip args = true
  /\ Z.of_nat (length (flat_map arg_bytes args)) = cursor (write args s) - cursor s
  /\ read (cursor s) (length (flat_map arg_bytes args)) (ram (write args s))
     = Some (flat_map arg_bytes args).
Proof.
  intros s narrow args. split; [reflexivity|].
  apply (write_packed args s). reflexivity.
Defined.

(** X4: The three ways of writing an array agree: the fixed-array
    overload of [write], [writeArray] with the whole array as its count,
    and one scalar write per element all leave the same cursor and the
    same memory. An [Sk4f] is written as its four lanes in order. *)
Theorem array_writes_agree {T : Type} `{Pod T} (vals : list T) (vector : Sk4f) (s : state) :
  write [FixedArray vals] s = write (map Plain vals) s
  /\ writeArray vals (Z.of_nat (length vals)) s = Some (write [FixedArray vals] s)
  /\ write [Vector vector] s
     = write [Plain (lane0 vector); Plain (lane1 vector);
              Plain (lane2 vector); Plain (lane3 vector)] s.
Proof.
  split; [|split].
  - rewrite write_plain_run. reflexivity.
  - unfold writeArray. destruct (decide _) as [_|Hn]; [|lia].
    cbn [write write_value]. unfold write_fixed_array. f_equal. f_equal.
    apply take_ge. rewrite length_flat_repr. lia.
  - pose proof (write_plain_run (Sk4f_store vector) s) as Hrun.
    cbn [map Sk4f_store] in Hrun. rewrite Hrun. reflexivity.
Qed.

(** X5: A [Skip<T>] reserves room without writing: whatever is written
    after it in the same call, the [sizeof(T)] bytes starting at the old
    cursor keep their previous contents, and the cursor ends up past the
    gap and the remaining fields. *)
Theorem skip_reserves_gap (T : Type) `{Pod T} (rest : list Arg) (s : state) (q : ptr) :
  cursor s <= q < cursor s + Z.of_nat (sizeof T) ->
  ram (write (Skip T :: rest) s) !! q = ram s !! q
  /\ cursor (write (Skip T :: rest) s)
     = cursor s + Z.of_nat (sizeof T) + total (map footprint rest).
Proof.
  intros Hq. cbn [write write_value]. split.
  - rewrite write_frame_footprint; [reflexivity|]. left. cbn. unfold SkTAddOffset. lia.
  - rewrite cursor_write. reflexivity.
Qed.

Lemma skip_reserves_gap_witness :
  let s := {| writer := {| fPtr := 4096 |}; ram := {[ 4097 := Byte.xff ]} |} in
  let rest := [Plain (U16 7)] in
  4096 <= 4097 < 4096 + Z.of_nat (sizeof uint32_t)
  /\ ram (write (Skip uint32_t :: rest) s) !! 4097 = Some Byte.xff
  /\ cursor (write (Skip uint32_t :: rest) s) = 4096 + 4 + 2.
Proof.
  intros s rest.
  assert (Hq : cursor s <= 4097 < cursor s + Z.of_nat (sizeof uint32_t))
    by (vm_compute; split; [discriminate | reflexivity]).
  split; [exact Hq|]. exact (skip_reserves_gap uint32_t rest s 4097 Hq).
Defined.

Lemma total_footprint_replicate (n : nat) (val : Arg) :
  total (map footprint (replicate n val)) = Z.of_nat n * footprint val.
Proof. induction n as [|n IH]; simpl; [reflexivity | lia]. Qed.

Lemma iter_write_replicate (n : nat) (val : Arg) (s : state) :
  Nat.iter n (write [val]) s = write (replicate n val) s.
Proof.
  revert s; induction n as [|n IH]; intros s; [reflexivity|].
  rewrite Nat.iter_succ_r, IH. reflexivity.
Qed.

(** X6: [fill(val, n)] is [write] with [n] copies of [val]: the cursor
    advances by [n] times the footprint of [val], and a count that is zero
    or negative leaves the writer and the memory untouched. *)
Theorem fill_as_repeated_write (val : Arg) (repeatCount : Z) (s : state) :
  fill val repeatCount s = write (replicate (Z.to_nat repeatCount) val) s
  /\ cursor (fill val repeatCount s) = cursor s + Z.max 0 repeatCount * footprint val
  /\ (repeatCount <= 0 -> fill val repeatCount s = s).
Proof.
  unfold fill. rewrite iter_write_replicate. split; [reflexivity|]. split.
  - rewrite cursor_write, total_footprint_replicate. f_equal. f_equal. lia.
  - intros Hn. replace (Z.to_nat repeatCount) with 0%nat by lia. reflexivity.
Qed.

Lemma fill_as_repeated_write_witness :
  let s := {| writer := {| fPtr := 4096 |}; ram := ∅ |} in
  let val := Plain (U16 7) in
  fill val (-3) s = write (replicate (Z.to_nat (-3)) val) s
  /\ cursor (fill val (-3) s) = cursor s + Z.max 0 (-3) * footprint val
  /\ (-3 <= 0 -> fill val (-3) s = s).
Proof. intros s val. exact (fill_as_repeated_write val (-3) s). Defined.

(** X7: [writeRaw(data, size)] with [size] within the data copies its
    first [size] bytes to the old cursor, where they can be read back,
    moves the cursor by [size], and changes nothing outside that span. *)
Theorem writeRaw_read_back (data : list byte) (size : Z) (s : state) :
  0 <= size <= Z.of_nat (length data) ->
  exists s' : state,
    writeRaw data size s = Some s'
    /\ cursor s' = cursor s + size
    /\ read (cursor s) (Z.to_nat size) (ram s') = Some (take (Z.to_nat size) data)
    /\ (forall q : ptr, q < cursor s \/ cursor s' <= q -> ram s' !! q = ram s !! q).
Proof.
  intros Hsize. unfold writeRaw. destruct (decide _) as [_|Hn]; [|contradiction].
  assert (Hlen : length (take (Z.to_nat size) data) = Z.to_nat size)
    by (rewrite length_take; lia).
  eexists. split; [reflexivity|]. split; [reflexivity|]. split.
  - cbn [ram copy_advance]. rewrite <- Hlen at 1. apply read_memcpy.
  - intros q Hq. apply copy_advance_frame. rewrite Hlen.
    rewrite cursor_copy_advance in Hq. lia.
Qed.

Lemma writeRaw_read_back_witness :
  let s := {| writer := {| fPtr := 4096 |}; ram := ∅ |} in
  let data := [Byte.x01; Byte.x02; Byte.x03] in
  0 <= 2 <= Z.of_nat (length data)
  /\ exists s' : state,
      writeRaw data 2 s = Some s'
      /\ cursor s' = cursor s + 2
      /\ read (cursor s) (Z.to_nat 2) (ram s') = Some (take (Z.to_nat 2) data)
      /\ (forall q : ptr, q < cursor s \/ cursor s' <= q -> ram s' !! q = ram s !! q).
Proof.
  intros s data.
  assert (Hsize : 0 <= 2 <= Z.of_nat (length data)) by (simpl; lia).
  split; [exact Hsize|]. exact (writeRaw_read_back data 2 s Hsize).
Defined.

(** X8: Raw copies compose: copying the concatenation of two byte ranges
    in one [writeRaw] is the same as copying the first and then the
    second; a copy of size zero changes nothing. *)
Theorem writeRaw_concat (data1 data2 : list byte) (s : state) :
  writeRaw (data1 ++ data2) (Z.of_nat (length data1) + Z.of_nat (length data2)) s
  = writeRaw data1 (Z.of_nat (length data1)) s
      ≫= writeRaw data2 (Z.of_nat (length data2))
  /\ writeRaw data1 0 s = Some s.
Proof.
  unfold writeRaw. split.
  - destruct (decide _) as [_|Hn]; [|rewrite length_app in Hn; lia].
    destruct (decide (0 <= Z.of_nat (length data1) <= Z.of_nat (length data1)))
      as [_|Hn]; [|lia].
    cbn [mbind option_bind].
    destruct (decide _) as [_|Hn]; [|lia].
    rewrite !take_ge by (rewrite ?length_app; lia).
    rewrite copy_advance_twice. reflexivity.
  - destruct (decide _) as [_|Hn]; [|lia].
    rewrite take_0. f_equal. apply copy_advance_nothing.
Qed.

Lemma writeQuadValue_as_write (corner : Z) (val : QuadArg) (s : state) :
  writeQuadValue corner val s = write (corner_args corner val) s.
Proof.
  destruct val as [val|T HT r|T HT r|q]; [reflexivity| | |reflexivity];
    unfold writeQuadValue, corner_args;
    repeat match goal with
           | |- context [match ?c with _ => _ end] => is_var c; destruct c
           end; reflexivity.
Qed.

Lemma writeQuadVert_as_write (corner : Z) (args : list QuadArg) (s : state) :
  writeQuadVert corner args s = write (flat_map (corner_args corner) args) s.
Proof.
  revert s; induction args as [|val args IH]; intros s; [reflexivity|].
  cbn [writeQuadVert flat_map]. rewrite IH, writeQuadValue_as_write, write_app.
  reflexivity.
Qed.

(** X9: [writeQuad(args...)] is [write] applied to four vertex records in
    a row, for corners 0, 1, 2 and 3: each record lists the arguments in
    their order, with a rectangle replaced by the two coordinates of that
    corner, a quad by that corner's point, and any other argument kept
    as it is. *)
Theorem writeQuad_expansion (args : list QuadArg) (s : state) :
  writeQuad args s
  = write (flat_map (corner_args 0) args ++ flat_map (corner_args 1) args ++
           flat_map (corner_args 2) args ++ flat_map (corner_args 3) args) s.
Proof.
  unfold writeQuad. rewrite !writeQuadVert_as_write, !write_app. reflexivity.
Qed.

Lemma corner_args_footprint (corner : Z) (val : QuadArg) :
  0 <= corner <= 3 ->
  total (map footprint (corner_args corner val)) = quad_footprint val.
Proof.
  intros Hc.
  assert (Hcases : corner = 0 \/ corner = 1 \/ corner = 2 \/ corner = 3) by lia.
  destruct val as [val|T HT r|T HT r|q]; simpl.
  - lia.
  - destruct Hcases as [->|[->|[->| ->]]]; simpl; lia.
  - destruct Hcases as [->|[->|[->| ->]]]; simpl; lia.
  - lia.
Qed.

Lemma total_app (sizes1 sizes2 : list Z) :
  total (sizes1 ++ sizes2) = total sizes1 + total sizes2.
Proof. induction sizes1 as [|z l IH]; simpl; [reflexivity | rewrite IH; lia]. Qed.

Lemma vertex_footprint (corner : Z) (args : list QuadArg) :
  0 <= corner <= 3 ->
  total (map footprint (flat_map (corner_args corner) args))
  = total (map quad_footprint args).
Proof.
  intros Hc. induction args as [|val args IH]; [reflexivity|].
  cbn [flat_map map]. rewrite map_app, total_app, IH.
  rewrite (corner_args_footprint corner val Hc). reflexivity.
Qed.

(** X10: The four vertex records of a [writeQuad] have the same size,
    whatever the corner: each one moves the cursor by the sum of the
    arguments' sizes within a record, and the whole call moves it by four
    times that stride. *)
Theorem writeQuad_stride (corner : Z) (args : list QuadArg) (s : state) :
  0 <= corner <= 3 ->
  cursor (writeQuadVert corner args s) = cursor s + total (map quad_footprint args)
  /\ cursor (writeQuad args s) = cursor s + 4 * total (map quad_footprint args).
Proof.
  intros Hc. split.
  - rewrite writeQuadVert_as_write, cursor_write, vertex_footprint by exact Hc.
    reflexivity.
  - unfold writeQuad. rewrite !writeQuadVert_as_write, !cursor_write.
    rewrite !vertex_footprint by lia. lia.
Qed.

Lemma writeQuad_stride_witness :
  let s := {| writer := {| fPtr := 4096 |}; ram := ∅ |} in
  let strip := {| strip_l := U16 0; strip_t := U16 0; strip_r := U16 10; strip_b := U16 20 |} in
  let args := [QTriStrip strip; QValue (Plain (U32 9))] in
  0 <= 2 <= 3
  /\ cursor (writeQuadVert 2 args s) = cursor s + total (map quad_footprint args)
  /\ cursor (writeQuad args s) = cursor s + 4 * total (map quad_footprint args).
Proof.
  intros s strip args.
  assert (Hc : 0 <= 2 <= 3) by lia.
  split; [exact Hc|]. exact (writeQuad_stride 2 args s Hc).
Defined.

Lemma corner_args_values (corner : Z) (args : list Arg) :
  flat_map (corner_args corner) (map QValue args) = args.
Proof. induction args as [|a args IH]; simpl; [|rewrite IH]; reflexivity. Qed.

(** X11: Arguments that do not depend on the corner are replicated:
    [writeQuad] of such arguments alone is [write] of the same argument
    list four times over. *)
Theorem writeQuad_shared_values (args : list Arg) (s : state) :
  writeQuad (map QValue args) s = write (args ++ args ++ args ++ args) s.
Proof.
  unfold writeQuad. rewrite !writeQuadVert_as_write, !corner_args_values, !write_app.
  reflexivity.
Qed.

Lemma writer_eta (w : GrVertexWriter) : {| fPtr := fPtr w |} = w.
Proof. destruct w; reflexivity. Qed.

(** X12: [makeOffset] predicts where writing leads: the writer after
    [write(args...)] is the writer before it offset by the total footprint
    of the arguments. Offsets add up, offset zero is the writer itself,
    and two offsets of one writer compare equal exactly when the offsets
    are equal. *)
Theorem makeOffset_tracks_write (args : list Arg) (s : state) (w : GrVertexWriter)
    (a b : Z) :
  writer (write args s) = makeOffset (writer s) (total (map footprint args))
  /\ makeOffset (makeOffset w a) b = makeOffset w (a + b)
  /\ makeOffset w 0 = w
  /\ op_eq (makeOffset w a) (makeOffset w b) = (a =? b).
Proof.
  split; [|split; [|split]].
  - rewrite <- (writer_eta (writer (write args s))).
    pose proof (cursor_write args s) as Hc. unfold cursor in Hc. rewrite Hc.
    reflexivity.
  - unfold makeOffset, SkTAddOffset. cbn [fPtr]. now rewrite Z.add_assoc.
  - unfold makeOffset, SkTAddOffset. rewrite Z.add_0_r. apply writer_eta.
  - unfold op_eq, makeOffset, SkTAddOffset. cbn [fPtr].
    destruct (Z.eqb_spec a b) as [->|Hne].
    + apply Z.eqb_refl.
    + apply Z.eqb_neq. lia.
Qed.

(** X13: Moves keep addresses unshared: if no two writer objects hold the
    same non-null address, then the same is true after a move assignment,
    whichever two objects it involves. *)
Theorem move_keeps_unique_owner (this that : nat) (σ σ' : objects) :
  unique_owner σ ->
  move_assign this that σ = Some σ' ->
  unique_owner σ'.
Proof.
  intros Huniq Hmove. unfold move_assign in Hmove.
  destruct (σ !! that) as [w|] eqn:Hthat; [|discriminate].
  injection Hmove as <-. unfold set_fPtr.
  intros i j wi wj Hi Hj Heq Hnn.
  destruct (decide (i = that)) as [->|Hit].
  { rewrite lookup_insert_eq in Hi. injection Hi as <-. contradiction. }
  destruct (decide (j = that)) as [->|Hjt].
  { rewrite lookup_insert_eq in Hj. injection Hj as <-. rewrite Heq in Hnn.
    contradiction. }
  rewrite lookup_insert_ne in Hi by congruence.
  rewrite lookup_insert_ne in Hj by congruence.
  destruct (decide (i = this)) as [->|Hi'], (decide (j = this)) as [->|Hj'];
    try reflexivity.
  - rewrite lookup_insert_eq in Hi. injection Hi as <-. cbn [fPtr] in *.
    rewrite lookup_insert_ne in Hj by congruence.
    exfalso. apply Hjt. apply (Huniq j that wj w Hj Hthat); congruence.
  - rewrite lookup_insert_eq in Hj. injection Hj as <-. cbn [fPtr] in *.
    rewrite lookup_insert_ne in Hi by congruence.
    exfalso. apply Hit. apply (Huniq i that wi w Hi Hthat); congruence.
  - rewrite lookup_insert_ne in Hi by congruence.
    rewrite lookup_insert_ne in Hj by congruence.
    apply (Huniq i j wi wj Hi Hj Heq Hnn).
Qed.

Lemma move_keeps_unique_owner_witness :
  let σ : objects := {[ 1%nat := {| fPtr := 4096 |} ]} in
  let σ' : objects := set_fPtr 1 nullptr (set_fPtr 0 4096 σ) in
  unique_owner σ /\ move_assign 0 1 σ = Some σ' /\ unique_owner σ'.
Proof.
  intros σ σ'.
  assert (Huniq : unique_owner σ).
  { intros i j wi wj Hi Hj _ _.
    apply lookup_singleton_Some in Hi as [<- _].
    apply lookup_singleton_Some in Hj as [<- _]. reflexivity. }
  assert (Hmove : move_assign 0 1 σ = Some σ') by reflexivity.
  split; [exact Huniq|]. split; [exact Hmove|].
  exact (move_keeps_unique_owner 0 1 σ σ' Huniq Hmove).
Defined.

(** X14: Moving a writer onto itself loses its address: after
    [w = std::move(w)] the writer is null and tests false, and every other
    writer object is as before. *)
Theorem self_move_nulls (that : nat) (w : GrVertexWriter) (σ : objects) :
  σ !! that = Some w ->
  exists σ' : objects,
    move_assign that that σ = Some σ'
    /\ σ' !! that = Some {| fPtr := nullptr |}
    /\ op_bool {| fPtr := nullptr |} = false
    /\ (forall i : nat, i <> that -> σ' !! i = σ !! i).
Proof.
  intros Hthat. exists (set_fPtr that nullptr σ).
  split; [exact (move_assign_self that w σ Hthat)|].
  unfold set_fPtr. split; [apply lookup_insert_eq|]. split; [reflexivity|].
  intros i Hi. apply lookup_insert_ne. congruence.
Qed.

Lemma self_move_nulls_witness :
  let σ : objects := {[ 1%nat := {| fPtr := 4096 |} ]} in
  σ !! 1%nat = Some {| fPtr := 4096 |}
  /\ exists σ' : objects,
      move_assign 1 1 σ = Some σ'
      /\ σ' !! 1%nat = Some {| fPtr := nullptr |}
      /\ op_bool {| fPtr := nullptr |} = false
      /\ (forall i : nat, i <> 1%nat -> σ' !! i = σ !! i).
Proof.
  intros σ.
  assert (Hthat : σ !! 1%nat = Some {| fPtr := 4096 |}) by reflexivity.
  split; [exact Hthat|]. exact (self_move_nulls 1 {| fPtr := 4096 |} σ Hthat).
Defined.

End WriterMore.


(** ** Further properties of the render command encoder *)

Module EncoderMore.
Import Mtl EncoderProofs.

(** X15: Every method other than the four caching setters forwards
    exactly one message, the same one whatever the state of the wrapper,
    and leaves the tracked state alone. *)
Theorem passthrough_forwards_once (op : operation) :
  is_caching op = false ->
  exists msg : message,
    forall e : RenderCommandEncoder,
      fCommandEncoder (invoke op e) = fCommandEncoder e ++ [msg]
      /\ tracked (invoke op e) = tracked e.
Proof.
  intros Hnc. destruct op; try discriminate Hnc;
    eexists; intros e; split; reflexivity.
Qed.

Lemma passthrough_forwards_once_witness :
  is_caching (op_drawIndexedPrimitives 3 6 0 4096 0) = false
  /\ exists msg : message,
      forall e : RenderCommandEncoder,
        fCommandEncoder (invoke (op_drawIndexedPrimitives 3 6 0 4096 0) e)
        = fCommandEncoder e ++ [msg]
        /\ tracked (invoke (op_drawIndexedPrimitives 3 6 0 4096 0) e) = tracked e.
Proof.
  split; [reflexivity|].
  exact (passthrough_forwards_once (op_drawIndexedPrimitives 3 6 0 4096 0) eq_refl).
Defined.

Lemma slot_setDepthStencilState (ds : objc_id) (e : RenderCommandEncoder) :
  fCurrentDepthStencilState (setDepthStencilState ds e) = ds.
Proof.
  unfold setDepthStencilState.
  destruct (ds =? fCurrentDepthStencilState e) eqn:E; simpl; [|reflexivity].
  symmetry. now apply Z.eqb_eq.
Qed.

Lemma slot_setTriangleFillMode (fillMode : MTLTriangleFillMode) (e : RenderCommandEncoder) :
  fCurrentTriangleFillMode (setTriangleFillMode fillMode e) = fillMode.
Proof.
  unfold setTriangleFillMode.
  destruct (fCurrentTriangleFillMode e =? fillMode) eqn:E; simpl; [|reflexivity].
  now apply Z.eqb_eq.
Qed.

(** A setter that finds its value in the cache returns the wrapper as it
    is. *)
Lemma setRenderPipelineState_cached (e : RenderCommandEncoder) :
  setRenderPipelineState (fCurrentRenderPipelineState e) e = e.
Proof. unfold setRenderPipelineState. now rewrite Z.eqb_refl. Qed.

Lemma setDepthStencilState_cached (e : RenderCommandEncoder) :
  setDepthStencilState (fCurrentDepthStencilState e) e = e.
Proof. unfold setDepthStencilState. now rewrite Z.eqb_refl. Qed.

Lemma setTriangleFillMode_cached (e : RenderCommandEncoder) :
  setTriangleFillMode (fCurrentTriangleFillMode e) e = e.
Proof. unfold setTriangleFillMode. now rewrite Z.eqb_refl. Qed.

Lemma setScissorRect_cached (e : RenderCommandEncoder) :
  setScissorRect (fCurrentScissorRect e) e = e.
Proof. unfold setScissorRect. now rewrite !Z.eqb_refl. Qed.

(** X16: Each caching setter is idempotent: calling it a second time with
    the same value returns the wrapper unchanged, so nothing more reaches
    the native encoder, whatever the state before the first call. *)
Theorem setters_idempotent (e : RenderCommandEncoder) (pso depthStencilState : objc_id)
    (fillMode : MTLTriangleFillMode) (scissorRect : MTLScissorRect) :
  setRenderPipelineState pso (setRenderPipelineState pso e)
  = setRenderPipelineState pso e
  /\ setDepthStencilState depthStencilState (setDepthStencilState depthStencilState e)
     = setDepthStencilState depthStencilState e
  /\ setTriangleFillMode fillMode (setTriangleFillMode fillMode e)
     = setTriangleFillMode fillMode e
  /\ setScissorRect scissorRect (setScissorRect scissorRect e)
     = setScissorRect scissorRect e.
Proof.
  split; [|split; [|split]].
  - rewrite <- (slot_setRenderPipelineState pso e) at 1.
    apply setRenderPipelineState_cached.
  - rewrite <- (slot_setDepthStencilState depthStencilState e) at 1.
    apply setDepthStencilState_cached.
  - rewrite <- (slot_setTriangleFillMode fillMode e) at 1.
    apply setTriangleFillMode_cached.
  - rewrite <- (slot_setScissorRect scissorRect e) at 1.
    apply setScissorRect_cached.
Qed.

(** X17: After any method call each slot of the tracked state holds the
    value its own setter was just given, and otherwise what it held
    before: no method writes a slot other than its own. *)
Theorem slots_change_only_by_their_setter (op : operation) (e : RenderCommandEncoder) :
  fCurrentRenderPipelineState (invoke op e)
  = match op with
    | op_setRenderPipelineState pso => pso
    | _ => fCurrentRenderPipelineState e
    end
  /\ fCurrentDepthStencilState (invoke op e)
     = match op with
       | op_setDepthStencilState depthStencilState => depthStencilState
       | _ => fCurrentDepthStencilState e
       end
  /\ fCurrentTriangleFillMode (invoke op e)
     = match op with
       | op_setTriangleFillMode fillMode => fillMode
       | _ => fCurrentTriangleFillMode e
       end
  /\ fCurrentScissorRect (invoke op e)
     = match op with
       | op_setScissorRect scissorRect => scissorRect
       | _ => fCurrentScissorRect e
       end.
Proof.
  destruct op; cbn [invoke]; try (repeat split; reflexivity).
  - split; [apply slot_setRenderPipelineState|].
    unfold setRenderPipelineState. destruct (negb _); repeat split; reflexivity.
  - split; [|split; [|split]];
      try (unfold setTriangleFillMode; destruct (negb _); reflexivity).
    apply slot_setTriangleFillMode.
  - split; [|split; [|split]];
      try (unfold setDepthStencilState; destruct (negb _); reflexivity).
    apply slot_setDepthStencilState.
  - split; [|split; [|split]];
      try (unfold setScissorRect; destruct (_ || _); reflexivity).
    apply slot_setScissorRect.
Qed.

Lemma latest_snoc {A : Type} (pick : message -> option A) (log : list message)
    (msg : message) :
  latest pick (log ++ [msg])
  = match pick msg with Some v => Some v | None => latest pick log end.
Proof. unfold latest. rewrite fold_left_app. reflexivity. Qed.

Lemma matches_send (msg : message) (e : RenderCommandEncoder) :
  pick_pipeline msg = None -> pick_depthStencil msg = None ->
  pick_scissor msg = None -> pick_fillMode msg = None ->
  cache_matches_native e -> cache_matches_native (send msg e).
Proof.
  intros Hp Hd Hs Hf (Ip & Id & Is & If'). unfold cache_matches_native.
  cbn [send fCommandEncoder fCurrentRenderPipelineState fCurrentDepthStencilState
       fCurrentScissorRect fCurrentTriangleFillMode].
  rewrite !latest_snoc, Hp, Hd, Hs, Hf. repeat split; assumption.
Qed.

Lemma matches_invoke (op : operation) (e : RenderCommandEncoder) :
  cache_matches_native e -> cache_matches_native (invoke op e).
Proof.
  intros Inv.
  destruct op; cbn [invoke]; unfold_methods;
    try (apply matches_send; [reflexivity..|exact Inv]).
  - unfold setRenderPipelineState. destruct (negb _); [|exact Inv].
    destruct Inv as (Ip & Id & Is & If'). unfold cache_matches_native.
    cbn [send fCommandEncoder fCurrentRenderPipelineState fCurrentDepthStencilState
         fCurrentScissorRect fCurrentTriangleFillMode].
    rewrite !latest_snoc. cbn. repeat split; assumption.
  - unfold setTriangleFillMode. destruct (negb _); [|exact Inv].
    destruct Inv as (Ip & Id & Is & If'). unfold cache_matches_native.
    cbn [send fCommandEncoder fCurrentRenderPipelineState fCurrentDepthStencilState
         fCurrentScissorRect fCurrentTriangleFillMode].
    rewrite !latest_snoc. cbn. repeat split; assumption.
  - unfold setDepthStencilState. destruct (negb _); [|exact Inv].
    destruct Inv as (Ip & Id & Is & If'). unfold cache_matches_native.
    cbn [send fCommandEncoder fCurrentRenderPipelineState fCurrentDepthStencilState
         fCurrentScissorRect fCurrentTriangleFillMode].
    rewrite !latest_snoc. cbn. repeat split; assumption.
  - unfold setScissorRect. destruct (_ || _); [|exact Inv].
    destruct Inv as (Ip & Id & Is & If'). unfold cache_matches_native.
    cbn [send fCommandEncoder fCurrentRenderPipelineState fCurrentDepthStencilState
         fCurrentScissorRect fCurrentTriangleFillMode].
    rewrite !latest_snoc. cbn. repeat split; assumption.
Qed.

Lemma matches_run (ops : list operation) (e : RenderCommandEncoder) :
  cache_matches_native e -> cache_matches_native (run ops e).
Proof.
  unfold run. revert e; induction ops as [|op ops IH]; intros e Inv; [exact Inv|].
  cbn [fold_left]. apply IH, matches_invoke, Inv.
Qed.

Lemma matches_Make : cache_matches_native Make.
Proof. repeat split. Qed.

(** X18: The tracked state never drifts from the native encoder: after
    any sequence of method calls on a new wrapper, each slot holds the
    argument of the latest message of its kind that was forwarded, or its
    initial value if no such message has been forwarded yet. *)
Theorem cache_tracks_native (ops : list operation) :
  cache_matches_native (run ops Make).
Proof. apply matches_run, matches_Make. Qed.

(** X19: Eliding is sound: on a wrapper reached from a new one by any
    sequence of calls, once a setter has been called with a value other
    than the slot's initial value, the latest message of that kind which
    the native encoder has received carries that value, whether this call
    forwarded it or found it cached. *)
Theorem elision_is_sound (ops : list operation) (pso depthStencilState : objc_id)
    (fillMode : MTLTriangleFillMode) (scissorRect : MTLScissorRect) :
  pso <> nil ->
  depthStencilState <> nil ->
  fillMode <> 2 ^ 64 - 1 ->
  scissorRect <> {| x := 0; y := 0; width := 0; height := 0 |} ->
  let e := run ops Make in
  latest pick_pipeline (fCommandEncoder (setRenderPipelineState pso e)) = Some pso
  /\ latest pick_depthStencil (fCommandEncoder (setDepthStencilState depthStencilState e))
     = Some depthStencilState
  /\ latest pick_fillMode (fCommandEncoder (setTriangleFillMode fillMode e))
     = Some fillMode
  /\ latest pick_scissor (fCommandEncoder (setScissorRect scissorRect e))
     = Some scissorRect.
Proof.
  intros Hp Hd Hf Hs e.
  destruct (matches_run ops Make matches_Make) as (Ip & Id & Is & If').
  fold e in Ip, Id, Is, If'.
  split; [|split; [|split]].
  - rewrite log_setRenderPipelineState.
    destruct (Z.eqb_spec (fCurrentRenderPipelineState e) pso) as [Heq|_].
    + rewrite app_nil_r. rewrite Ip in Heq.
      destruct (latest pick_pipeline (fCommandEncoder e)); simpl in Heq; congruence.
    + now rewrite latest_snoc.
  - rewrite log_setDepthStencilState.
    destruct (Z.eqb_spec depthStencilState (fCurrentDepthStencilState e)) as [Heq|_].
    + rewrite app_nil_r. rewrite Id in Heq.
      destruct (latest pick_depthStencil (fCommandEncoder e)); simpl in Heq; congruence.
    + now rewrite latest_snoc.
  - rewrite log_setTriangleFillMode.
    destruct (Z.eqb_spec (fCurrentTriangleFillMode e) fillMode) as [Heq|_].
    + rewrite app_nil_r. rewrite If' in Heq.
      destruct (latest pick_fillMode (fCommandEncoder e)); simpl in Heq; [congruence|].
      exfalso. apply Hf. rewrite <- Heq. reflexivity.
    + now rewrite latest_snoc.
  - rewrite log_setScissorRect.
    destruct (same_rect (fCurrentScissorRect e) scissorRect) eqn:Heq.
    + rewrite app_nil_r. apply same_rect_eq in Heq. rewrite Is in Heq.
      destruct (latest pick_scissor (fCommandEncoder e)); simpl in Heq; congruence.
    + now rewrite latest_snoc.
Qed.

Lemma elision_is_sound_witness :
  let e := run [op_setScissorRect {| x := 0; y := 0; width := 100; height := 100 |};
                op_drawPrimitives 3 0 3;
                op_setRenderPipelineState 4096] Make in
  let r := {| x := 0; y := 0; width := 100; height := 100 |} in
  (4096 <> nil /\ 8192 <> nil /\ MTLTriangleFillModeLines <> 2 ^ 64 - 1
   /\ r <> {| x := 0; y := 0; width := 0; height := 0 |})
  /\ latest pick_pipeline (fCommandEncoder (setRenderPipelineState 4096 e)) = Some 4096
  /\ latest pick_depthStencil (fCommandEncoder (setDepthStencilState 8192 e)) = Some 8192
  /\ latest pick_fillMode (fCommandEncoder (setTriangleFillMode MTLTriangleFillModeLines e))
     = Some MTLTriangleFillModeLines
  /\ latest pick_scissor (fCommandEncoder (setScissorRect r e)) = Some r.
Proof.
  intros e r. split; [repeat split; discriminate|].
  apply (elision_is_sound
           [op_setScissorRect {| x := 0; y := 0; width := 100; height := 100 |};
            op_drawPrimitives 3 0 3; op_setRenderPipelineState 4096]
           4096 8192 MTLTriangleFillModeLines r); discriminate.
Defined.

Lemma invoke_sends_at_most_one (op : operation) (e : RenderCommandEncoder) :
  exists msgs : list message,
    fCommandEncoder (invoke op e) = fCommandEncoder e ++ msgs
    /\ (length msgs <= 1)%nat.
Proof.
  destruct op; cbn [invoke]; unfold_methods;
    try (eexists; split; [reflexivity | simpl; lia]).
  - rewrite log_setRenderPipelineState. eexists; split; [reflexivity|].
    destruct (_ =? _); simpl; lia.
  - rewrite log_setTriangleFillMode. eexists; split; [reflexivity|].
    destruct (_ =? _); simpl; lia.
  - rewrite log_setDepthStencilState. eexists; split; [reflexivity|].
    destruct (_ =? _); simpl; lia.
  - rewrite log_setScissorRect. eexists; split; [reflexivity|].
    destruct (same_rect _ _); simpl; lia.
Qed.

(** X20: The wrapper only ever adds to what the native encoder receives,
    and at most one message per method call: after any sequence of calls
    the earlier messages are still there, in order, followed by no more
    new messages than there were calls. *)
Theorem run_sends_at_most_one_each (ops : list operation) (e : RenderCommandEncoder) :
  exists msgs : list message,
    fCommandEncoder (run ops e) = fCommandEncoder e ++ msgs
    /\ (length msgs <= length ops)%nat.
Proof.
  unfold run. revert e; induction ops as [|op ops IH]; intros e; cbn [fold_left].
  - exists []. split; [now rewrite app_nil_r | simpl; lia].
  - destruct (invoke_sends_at_most_one op e) as (m1 & H1 & L1).
    destruct (IH (invoke op e)) as (m2 & H2 & L2).
    exists (m1 ++ m2). split.
    + rewrite H2, H1, app_assoc. reflexivity.
    + rewrite length_app. simpl. lia.
Qed.

Section Changes.
Context {A : Type} (same : A -> A -> bool) (slot : RenderCommandEncoder -> A)
  (set : A -> RenderCommandEncoder -> RenderCommandEncoder) (msg : A -> message).
Hypothesis log_set : forall v e,
  fCommandEncoder (set v e) = fCommandEncoder e ++ (if same (slot e) v then [] else [msg v]).
Hypothesis slot_set : forall v e, slot (set v e) = v.

(** For any setter that forwards by comparing with its slot, a sequence of
    calls forwards the values that differ from their predecessor. *)
Lemma log_set_sequence (vs : list A) (e : RenderCommandEncoder) :
  fCommandEncoder (fold_left (fun e v => set v e) vs e)
  = fCommandEncoder e ++ map msg (changes same (slot e) vs).
Proof.
  revert e; induction vs as [|v vs IH]; intros e; cbn [fold_left changes map].
  - now rewrite app_nil_r.
  - rewrite IH, log_set, slot_set.
    destruct (same (slot e) v); cbn [map].
    + now rewrite app_nil_r.
    + now rewrite <- app_assoc.
Qed.

End Changes.

Lemma run_map (A : Type) (mk : A -> operation)
    (set : A -> RenderCommandEncoder -> RenderCommandEncoder) (vs : list A)
    (e : RenderCommandEncoder) :
  (forall v e', invoke (mk v) e' = set v e') ->
  run (map mk vs) e = fold_left (fun e v => set v e) vs e.
Proof.
  intros Hmk. unfold run. revert e; induction vs as [|v vs IH]; intros e; [reflexivity|].
  cbn [map fold_left]. rewrite Hmk. apply IH.
Qed.

(** X21: A sequence of calls to one caching setter forwards exactly the
    values that differ from the value before them, the value before the
    first being the one in the cache: runs of repeated values collapse to
    one message each, and nothing else is dropped. This holds for the
    pipeline object, the depth/stencil object, the fill mode and the
    scissor rectangle. *)
Theorem setter_sequence_forwards_changes (e : RenderCommandEncoder)
    (psos dss : list objc_id) (fillModes : list MTLTriangleFillMode)
    (rects : list MTLScissorRect) :
  fCommandEncoder (run (map op_setRenderPipelineState psos) e)
  = fCommandEncoder e ++
    map msg_setRenderPipelineState (changes Z.eqb (fCurrentRenderPipelineState e) psos)
  /\ fCommandEncoder (run (map op_setDepthStencilState dss) e)
     = fCommandEncoder e ++
       map msg_setDepthStencilState (changes Z.eqb (fCurrentDepthStencilState e) dss)
  /\ fCommandEncoder (run (map op_setTriangleFillMode fillModes) e)
     = fCommandEncoder e ++
       map msg_setTriangleFillMode (changes Z.eqb (fCurrentTriangleFillMode e) fillModes)
  /\ fCommandEncoder (run (map op_setScissorRect rects) e)
     = fCommandEncoder e ++
       map msg_setScissorRect (changes same_rect (fCurrentScissorRect e) rects).
Proof.
  split; [|split; [|split]].
  - rewrite (run_map _ _ setRenderPipelineState) by reflexivity.
    apply (log_set_sequence Z.eqb fCurrentRenderPipelineState).
    + intros v e'. apply log_setRenderPipelineState.
    + intros v e'. apply slot_setRenderPipelineState.
  - rewrite (run_map _ _ setDepthStencilState) by reflexivity.
    apply (log_set_sequence Z.eqb fCurrentDepthStencilState).
    + intros v e'. rewrite log_setDepthStencilState. now rewrite Z.eqb_sym.
    + intros v e'. apply slot_setDepthStencilState.
  - rewrite (run_map _ _ setTriangleFillMode) by reflexivity.
    apply (log_set_sequence Z.eqb fCurrentTriangleFillMode).
    + intros v e'. apply log_setTriangleFillMode.
    + intros v e'. apply slot_setTriangleFillMode.
  - rewrite (run_map _ _ setScissorRect) by reflexivity.
    apply (log_set_sequence same_rect fCurrentScissorRect).
    + intros v e'. apply log_setScissorRect.
    + intros v e'. apply slot_setScissorRect.
Qed.

(** On a new wrapper, the pipeline objects 1, 1, 2, 3, 2 in this order
    reach the native encoder as 1, 2, 3, 2. *)
Example setter_sequence_example :
  fCommandEncoder (run (map op_setRenderPipelineState [1; 1; 2; 3; 2]) Make)
  = map msg_setRenderPipelineState [1; 2; 3; 2].
Proof. reflexivity. Qed.

End EncoderMore.
